(** * rlq_site_odoo: the prize draw and the answer pivot

    A shallow embedding of
    - [src/random_sort_visiteurs/run_lottery.py] (eligibility, draw, ledger),
    - [src/explode_form_responses/pivot_form_responses_participants.py]
      (forward fill, answer numbering, pivot),
    - [src/prepare_data/create_files.py] (input file, ticket and status
      columns, role files),
    with the pandas operations the scripts call written out as list and
    finite-map functions. *)

From Stdlib Require Import ZArith Ascii String.
From stdpp Require Import base option list gmap strings sorting pretty.


(** ** Tables *)

(** What a spreadsheet cell holds when it is not blank. *)
Inductive value :=
  | Text (s : string)
  | Number (z : Z).

#[global] Instance value_eq_dec : EqDecision value.
Proof. solve_decision. Defined.

(** A cell is [None] when it is blank: this is pandas' NaN. *)
Abbreviation cell := (option value).

(** A row keeps the cells that are not blank, by column name; reading a
    column the row has no entry for yields NaN. *)
Abbreviation row := (gmap string value).

Record DataFrame := mkDataFrame {
  columns : list string;
  rows : list row;
}.

(** [pd.DataFrame()] *)
Definition empty_frame : DataFrame := mkDataFrame [] [].

(** [len(df)] *)
Definition len (df : DataFrame) : nat := length (rows df).

(** [df.empty]: true when either axis has length zero. *)
Definition is_empty (df : DataFrame) : bool :=
  bool_decide (rows df = []) || bool_decide (columns df = []).

(** [col in df.columns] *)
Definition has_column (c : string) (df : DataFrame) : bool :=
  bool_decide (c ∈ columns df).

(** [df[col].tolist()] *)
Definition column_values (c : string) (df : DataFrame) : list cell :=
  (λ r : row, r !! c) <$> rows df.

(** [df[mask]] with the mask computed row by row. *)
Definition select (keep : row → bool) (df : DataFrame) : DataFrame :=
  mkDataFrame (columns df) (filter (λ r, keep r = true) (rows df)).

(** [series.isin(values)]: NaN matches NaN. *)
Definition isin (c : cell) (values : list cell) : bool :=
  bool_decide (c ∈ values).

(** [pd.concat([a, b], ignore_index=True)]: the columns of [a], then those
    of [b] that [a] lacks; the rows of [a], then the rows of [b]; a cell in a
    column its frame did not have is NaN. *)
Definition concat (a b : DataFrame) : DataFrame :=
  mkDataFrame
    (columns a ++ filter (λ c, c ∉ columns a) (columns b))
    (rows a ++ rows b).

(** [df[col] = scalar] *)
Definition assign (c : string) (v : value) (df : DataFrame) : DataFrame :=
  mkDataFrame
    (if has_column c df then columns df else columns df ++ [c])
    (insert c v <$> rows df).

(** [series.unique().tolist()]: the distinct cells in order of first
    appearance, NaN included. *)
Fixpoint unique {A} `{EqDecision A} (l : list A) : list A :=
  match l with
  | [] => []
  | x :: l' => x :: filter (λ y, y ≠ x) (unique l')
  end.

(** How many cells of a column hold the value [v]. *)
Definition occurrences (v : value) (l : list cell) : nat :=
  length (filter (λ c, c = Some v) l).

(** [series.value_counts()]: one entry per distinct value with the number
    of its occurrences; NaN is not counted. pandas orders the entries by
    decreasing count; the only caller turns the labels into a set. *)
Definition value_counts (l : list cell) : list (value * nat) :=
  (λ v, (v, occurrences v l)) <$> unique (omap id l).

(** ** The draw script: what it prints and does *)

Inductive source := Visiteurs | Benevoles.

Inductive message :=
  | FichierCharge (f : source) (lignes : nat)
  | FichierIntrouvable (f : source)
  | TotalParticipants (n : nat)
  | AucunFichierGagnants
  | ColonnesManquantes (name_column role_column : string)
  | PersonnesIneligibles (n : nat)
  | AucunParticipant
  | TicketsEligibles (n : nat)
  | PlusDeTicketsEligibles
  | EntierInvalide
  | NombreNonPositif
  | PasAssezDeParticipants (eligibles : nat) (demandes : Z)
  | NouveauxGagnants (n : Z) (df : DataFrame)
  | ListeMiseAJour.

(** The effects of a run, in program order. *)
Inductive event :=
  | Print (m : message)
  | Input                      (* input("Nombre de gagnants à tirer ? ") *)
  | Sample (n : nat)           (* df_eligibles.sample(n=...) *)
  | Now                        (* datetime.now() *)
  | ToExcel (df : DataFrame).  (* df_final_gagnants.to_excel(...) *)

(** The three spreadsheets of [output_files] the script touches; [None] is
    a file that does not exist. *)
Record Files := mkFiles {
  event_registration_visiteurs : option DataFrame;
  event_registration_benevoles : option DataFrame;
  gagnants_combines : option DataFrame;
}.

(** [load_and_concatenate_participants]: a file that is not found counts
    as an empty table. *)
Definition load_one (f : source) (file : option DataFrame)
    : list event * DataFrame :=
  match file with
  | Some df => ([Print (FichierCharge f (len df))], df)
  | None => ([Print (FichierIntrouvable f)], empty_frame)
  end.

Definition load_and_concatenate_participants
    (visiteurs benevoles : option DataFrame) : list event * DataFrame :=
  let '(t1, df_visiteurs) := load_one Visiteurs visiteurs in
  let '(t2, df_benevoles) := load_one Benevoles benevoles in
  let df_entree := concat df_visiteurs df_benevoles in
  (t1 ++ t2 ++ [Print (TotalParticipants (len df_entree))], df_entree).

Definition is_benevole (role_column : string) (r : row) : bool :=
  bool_decide (r !! role_column = Some (Text "Benevole")).

(** [get_ineligible_participants]: the names that may not win again, and
    the ledger as read ([None] when there is no file). *)
Definition get_ineligible_participants
    (winners_file : option DataFrame) (name_column role_column : string)
    : list event * list cell * option DataFrame :=
  match winners_file with
  | None => ([Print AucunFichierGagnants], [], None)
  | Some df_gagnants_existants =>
    if is_empty df_gagnants_existants then ([], [], Some df_gagnants_existants)
    else if negb (has_column name_column df_gagnants_existants)
            || negb (has_column role_column df_gagnants_existants)
    then ([Print (ColonnesManquantes name_column role_column)], [],
          Some df_gagnants_existants)
    else
      let gagnants_benevoles :=
        select (is_benevole role_column) df_gagnants_existants in
      let gagnants_autres :=
        select (λ r, negb (is_benevole role_column r)) df_gagnants_existants in
      let personnes_a_exclure_autres :=
        unique (column_values name_column gagnants_autres) in
      let wins_par_benevole :=
        value_counts (column_values name_column gagnants_benevoles) in
      let benevoles_a_exclure :=
        (λ p, Some (fst p)) <$> filter (λ p, 2 ≤ snd p) wins_par_benevole in
      let personnes_ineligibles :=
        unique (personnes_a_exclure_autres ++ benevoles_a_exclure) in
      ([Print (PersonnesIneligibles (length personnes_ineligibles))],
       personnes_ineligibles, Some df_gagnants_existants)
  end.

(** A column lookup [df[col]] raises [KeyError] when the table has no such
    column. *)
Inductive result (A : Type) :=
  | Ok (a : A)
  | KeyError (c : string).
Arguments Ok {A} a.
Arguments KeyError {A} c.

Definition colonne_nom : string := "nom_du_participant".
Definition colonne_role : string := "ticket_devenement".
Definition colonne_id_ticket : string := "numero_ticket".
Definition heure_du_tirage : string := "heure_du_tirage".

(** Step 3 of [main]: drop the candidates whose name is ineligible, then,
    when the ledger has a ticket column, those whose ticket is in it. *)
Definition filter_eligible (df_entree : DataFrame)
    (personnes_ineligibles : list cell)
    (df_gagnants_existants : option DataFrame) : result DataFrame :=
  if negb (has_column colonne_nom df_entree) then KeyError colonne_nom
  else
    let df_eligibles :=
      select (λ r, negb (isin (r !! colonne_nom) personnes_ineligibles))
             df_entree in
    match df_gagnants_existants with
    | Some df_g =>
      if has_column colonne_id_ticket df_g then
        let tickets_gagnants := column_values colonne_id_ticket df_g in
        if negb (has_column colonne_id_ticket df_eligibles)
        then KeyError colonne_id_ticket
        else Ok (select (λ r, negb (isin (r !! colonne_id_ticket)
                                         tickets_gagnants)) df_eligibles)
      else Ok df_eligibles
    | None => Ok df_eligibles
    end.

(** What [int(input(...))] yields: [ValueError] for a text that is not an
    integer, the integer otherwise. *)
Inductive operator_input :=
  | NotAnInteger
  | Entered (n : Z).

(** [df.sample(n)] draws [n] rows without replacement. The random source is
    a stream of naturals: each draw takes the row at position
    [seed mod remaining] out of what is left of the pool. *)
Fixpoint sample_rows (seed : list nat) (n : nat) (pool : list row) : list row :=
  match n with
  | 0 => []
  | S n' =>
    let i := default 0 (head seed) `mod` length pool in
    match pool !! i with
    | Some r => r :: sample_rows (tail seed) n' (delete i pool)
    | None => []
    end
  end.

Definition sample (seed : list nat) (n : nat) (df : DataFrame) : DataFrame :=
  mkDataFrame (columns df) (sample_rows seed n (rows df)).

(** The clock. *)
Record datetime := mkDatetime {
  year : nat; month : nat; day : nat;
  hour : nat; minute : nat; second : nat;
}.

Definition digit (n : nat) : ascii := ascii_of_nat (48 + n `mod` 10).

(** [%m], [%d], [%H], [%M], [%S]: two digits, zero padded. *)
Definition two_digits (n : nat) : string :=
  String (digit (n `div` 10)) (String (digit n) "").

(** [%Y]: the year in decimal. *)
Definition year_digits (y : nat) : string :=
  let d1 := String (digit y) "" in
  let d2 := String (digit (y `div` 10)) d1 in
  let d3 := String (digit (y `div` 100)) d2 in
  let d4 := String (digit (y `div` 1000)) d3 in
  if decide (y < 10) then d1
  else if decide (y < 100) then d2
  else if decide (y < 1000) then d3
  else d4.

(** [now.strftime("%Y-%m-%d %H:%M:%S")] *)
Definition strftime (now : datetime) : string :=
  year_digits (year now) +:+ "-" +:+ two_digits (month now) +:+ "-"
  +:+ two_digits (day now) +:+ " " +:+ two_digits (hour now) +:+ ":"
  +:+ two_digits (minute now) +:+ ":" +:+ two_digits (second now).

(** How a run of [main] ended. *)
Inductive outcome :=
  | StoppedNoParticipant          (* line 84 *)
  | StoppedNoEligibleTicket       (* line 98 *)
  | StoppedInvalidInteger         (* line 105 *)
  | StoppedNonPositive            (* line 109 *)
  | StoppedNotEnough (eligibles : nat) (demandes : Z)   (* line 113 *)
  | Drawn (df_nouveaux_gagnants : DataFrame)            (* line 128 *)
  | Uncaught (colonne : string).  (* KeyError *)

Record Run := mkRun {
  trace : list event;
  ending : outcome;
  files : Files;
}.

(** Step 5 of [main]: the table written back to the ledger file. *)
Definition df_final_gagnants (df_gagnants_existants : option DataFrame)
    (df_nouveaux_gagnants : DataFrame) : DataFrame :=
  match df_gagnants_existants with
  | Some df_g =>
    if negb (is_empty df_g) then concat df_g df_nouveaux_gagnants
    else df_nouveaux_gagnants
  | None => df_nouveaux_gagnants
  end.

(** Steps 4 and 5 of [main]: ask for the number of winners, draw, stamp
    and save. [t] is what the run has done so far. *)
Definition draw_and_save (fs : Files) (t : list event)
    (df_eligibles : DataFrame) (df_gagnants_existants : option DataFrame)
    (typed : operator_input) (seed : list nat) (now : datetime) : Run :=
  match typed with
  | NotAnInteger =>
    mkRun (t ++ [Input; Print EntierInvalide]) StoppedInvalidInteger fs
  | Entered nb_gagnants_a_tirer =>
    if decide (nb_gagnants_a_tirer ≤ 0)%Z then
      mkRun (t ++ [Input; Print NombreNonPositif]) StoppedNonPositive fs
    else if decide (Z.of_nat (len df_eligibles) < nb_gagnants_a_tirer)%Z then
      mkRun (t ++ [Input;
                   Print (PasAssezDeParticipants (len df_eligibles)
                                                 nb_gagnants_a_tirer)])
            (StoppedNotEnough (len df_eligibles) nb_gagnants_a_tirer) fs
    else
      let n := Z.to_nat nb_gagnants_a_tirer in
      let df_nouveaux_gagnants :=
        assign heure_du_tirage (Text (strftime now))
               (sample seed n df_eligibles) in
      let final :=
        df_final_gagnants df_gagnants_existants df_nouveaux_gagnants in
      mkRun (t ++ [Input; Sample n; Now;
                   Print (NouveauxGagnants nb_gagnants_a_tirer
                                           df_nouveaux_gagnants);
                   ToExcel final; Print ListeMiseAJour])
            (Drawn df_nouveaux_gagnants)
            (mkFiles (event_registration_visiteurs fs)
                     (event_registration_benevoles fs)
                     (Some final))
  end.

(** [main]: the files before the run, what the operator types at the
    prompt, the random source and the clock; the run that results. *)
Definition main (fs : Files) (typed : operator_input) (seed : list nat)
    (now : datetime) : Run :=
  let '(t1, df_entree) :=
    load_and_concatenate_participants
      (event_registration_visiteurs fs) (event_registration_benevoles fs) in
  if is_empty df_entree then
    mkRun (t1 ++ [Print AucunParticipant]) StoppedNoParticipant fs
  else
    let '(t2, personnes_ineligibles, df_gagnants_existants) :=
      get_ineligible_participants (gagnants_combines fs)
        colonne_nom colonne_role in
    match filter_eligible df_entree personnes_ineligibles
            df_gagnants_existants with
    | KeyError c => mkRun (t1 ++ t2) (Uncaught c) fs
    | Ok df_eligibles =>
      let t3 := t1 ++ t2 ++ [Print (TicketsEligibles (len df_eligibles))] in
      if is_empty df_eligibles then
        mkRun (t3 ++ [Print PlusDeTicketsEligibles]) StoppedNoEligibleTicket fs
      else
        draw_and_save fs t3 df_eligibles df_gagnants_existants typed seed now
    end.

(** ** The answer pivot *)

(** A cell of the answers table: a text, or [None] when blank (NaN). *)
Abbreviation text := (option string).

(** The three columns of the cleaned registration file the pivot reads:
    one row per answer, the participant's name and e-mail filled in on the
    first of their rows only. *)
Record answer_row := mkAnswer {
  nom_du_participant : text;
  email : text;
  reponses_des_participants : text;
}.

(** [load_and_fill_na_data]: [df.fillna(method='ffill')] replaces, in every
    column, a blank cell by the last cell above it that is not blank. *)
Definition fill (above c : text) : text :=
  match c with Some _ => c | None => above end.

Fixpoint ffill (above : answer_row) (df : list answer_row) : list answer_row :=
  match df with
  | [] => []
  | r :: df' =>
    let r' := mkAnswer
                (fill (nom_du_participant above) (nom_du_participant r))
                (fill (email above) (email r))
                (fill (reponses_des_participants above)
                      (reponses_des_participants r)) in
    r' :: ffill r' df'
  end.

Definition load_and_fill_na_data (df : list answer_row) : list answer_row :=
  ffill (mkAnswer None None None) df.

(** A row of [df_responses]: the three columns and [num_reponse]. *)
Record response_row := mkResponse {
  answer : answer_row;
  num_reponse : option nat;
}.

(** The grouping key of a row; [groupby] leaves a row with a blank key cell
    out of every group. *)
Definition identity (r : answer_row) : option (string * string) :=
  match nom_du_participant r, email r with
  | Some n, Some e => Some (n, e)
  | _, _ => None
  end.

(** [groupby(["nom_du_participant", "email"]).cumcount()]: each row gets the
    number of rows of its group met before it; [seen] counts the rows met so
    far, by group. A row outside every group gets NaN. *)
Fixpoint cumcount (seen : gmap (string * string) nat) (df : list answer_row)
    : list response_row :=
  match df with
  | [] => []
  | r :: df' =>
    match identity r with
    | Some k =>
      let n := default 0 (seen !! k) in
      mkResponse r (Some n) :: cumcount (<[k := S n]> seen) df'
    | None => mkResponse r None :: cumcount seen df'
    end
  end.

(** [group_data_by_nam_email] *)
Definition group_data_by_nam_email (df_filled : list answer_row)
    : list response_row :=
  let df_responses :=
    filter (λ r, is_Some (reponses_des_participants r)) df_filled in
  cumcount ∅ df_responses.

(** The key of a row in [pivot_table]: index and column labels. A row with
    NaN in one of them is in no group. *)
Abbreviation pivot_key := (string * string * nat)%type.

Definition pivot_entry (r : response_row) : option (pivot_key * text) :=
  match identity (answer r), num_reponse r with
  | Some k, Some n => Some ((k, n), reponses_des_participants (answer r))
  | _, _ => None
  end.

(** [aggfunc="first"]: the first value of the group that is not NaN. *)
Definition first_valid (g : pivot_key) (keyed : list (pivot_key * text))
    : text :=
  head (omap (λ e, if decide (e.1 = g) then e.2 else None) keyed).

(** The aggregated groups; a group whose value is NaN is dropped. *)
Definition agged (keyed : list (pivot_key * text))
    : list (pivot_key * string) :=
  omap (λ g, (λ a, (g, a)) <$> first_valid g keyed) (unique (keyed.*1)).

(** The order of the index: by name, then by e-mail. *)
Definition identity_le (a b : string * string) : Prop :=
  if decide (a.1 = b.1) then String.le a.2 b.2 else String.le a.1 b.1.

#[global] Instance identity_le_dec : RelDecision identity_le.
Proof.
  intros a b. unfold identity_le. destruct (decide (a.1 = b.1)); apply _.
Defined.

(** [df_responses.pivot_table(index=[nom, email], columns="num_reponse",
    values="reponses_des_participants", aggfunc="first")]: one line per
    participant, in the order of the index; one column per ordinal, in
    increasing order; a cell without a group is NaN. *)
Record pivot_table_result := mkPivot {
  index : list (string * string);
  ordinals : list nat;
  table : list (list text);
}.

Definition pivot_table (df_responses : list response_row)
    : pivot_table_result :=
  let groups := agged (omap pivot_entry df_responses) in
  let cells : gmap pivot_key string := list_to_map groups in
  let index := merge_sort identity_le (unique ((λ e, e.1.1) <$> groups)) in
  let ordinals := merge_sort (≤) (unique ((λ e, e.1.2) <$> groups)) in
  mkPivot index ordinals
          ((λ k, (λ n, cells !! (k, n)) <$> ordinals) <$> index).

(** A column label of the result. *)
Inductive label :=
  | Named (s : string)
  | Float (n : nat).   (* the number n.0 *)

(** One line of the pivoted table: the participant, then the answer
    columns. *)
Record pivoted_participant := mkParticipant {
  participant : string * string;
  reponses : list text;
}.

Record pivoted := mkPivoted {
  answer_columns : list label;
  participants : list pivoted_participant;
}.

(** [pivot_responses]: pivot, [reset_index], rename the integer labels [n]
    to [reponse_(n+1)]. In pandas 2 [cumcount] yields a float column as soon
    as it holds a NaN; the labels are then floats, which the renaming leaves
    alone ([isinstance(col, int)] is false). *)
Definition pivot_responses (df_responses : list response_row) : pivoted :=
  let df_pivot := pivot_table df_responses in
  let float_labels :=
    existsb (λ r, bool_decide (num_reponse r = None)) df_responses in
  let rename_dict (col : nat) : label :=
    if float_labels then Float col
    else Named ("reponse_" +:+ pretty (col + 1)) in
  mkPivoted (rename_dict <$> ordinals df_pivot)
            (zip_with mkParticipant (index df_pivot) (table df_pivot)).

(** [pivot_table_and_save_to_excel], up to the table it saves. *)
Definition pivot_table_and_save_to_excel (file : list answer_row) : pivoted :=
  let df_filled := load_and_fill_na_data file in
  let df_responses := group_data_by_nam_email df_filled in
  pivot_responses df_responses.

(** ** Vocabulary of the ledger properties *)

(** The ledger [g] has an entry under the name [v] whose role is not
    'Benevole'. *)
Definition won_as_other (name role : string) (g : DataFrame) (v : value)
    : Prop :=
  ∃ r : row, r ∈ rows g ∧ r !! role ≠ Some (Text "Benevole")
             ∧ r !! name = Some v.

(** The number of ledger entries of [v] with role 'Benevole'. *)
Definition wins_as_benevole (name role : string) (g : DataFrame) (v : value)
    : nat :=
  length (filter (λ r : row, r !! role = Some (Text "Benevole")
                             ∧ r !! name = Some v) (rows g)).

(** The number of ledger entries of [v], whatever the role. *)
Definition wins (name : string) (g : DataFrame) (v : value) : nat :=
  length (filter (λ r : row, r !! name = Some v) (rows g)).

(** The names [get_ineligible_participants] returns. *)
Definition ineligible_names (g : DataFrame) (name role : string) : list cell :=
  (get_ineligible_participants (Some g) name role).1.2.

(** The ticket rule, as the script applies it: only with a ledger that has
    the ticket column. *)
Definition ticket_free (df_g : option DataFrame) (c : row) : Prop :=
  ∀ g, df_g = Some g → has_column colonne_id_ticket g = true →
       c !! colonne_id_ticket ∉ column_values colonne_id_ticket g.

(** The candidates a run loads (step 2 of [main]). *)
Definition candidates (fs : Files) : DataFrame :=
  (load_and_concatenate_participants
     (event_registration_visiteurs fs) (event_registration_benevoles fs)).2.

(** The ledger a run reads, [None] without a file. *)
Definition ledger_read (fs : Files) : option DataFrame :=
  (get_ineligible_participants (gagnants_combines fs)
     colonne_nom colonne_role).2.

(** The eligible pool a run computes (step 3 of [main]). *)
Definition eligible_pool (fs : Files) : result DataFrame :=
  filter_eligible (candidates fs)
    (get_ineligible_participants (gagnants_combines fs)
       colonne_nom colonne_role).1.2
    (ledger_read fs).

(** The rows of the ledger file before a run. *)
Definition ledger_rows (fs : Files) : list row :=
  match gagnants_combines fs with Some g => rows g | None => [] end.

(** A table with no column has no row. *)
Definition table_ok (df : DataFrame) : Prop :=
  columns df = [] → rows df = [].

(** The effects of a draw: sampling, reading the clock, writing the ledger. *)
Definition is_draw_effect (e : event) : bool :=
  match e with
  | Sample _ | Now | ToExcel _ => true
  | Print _ | Input => false
  end.

Definition no_draw_effect (t : list event) : Prop :=
  Forall (λ e, is_draw_effect e = false) t.

(** YYYY-MM-DD HH:MM:SS *)
Definition is_digit (a : ascii) : bool :=
  (48 <=? nat_of_ascii a) && (nat_of_ascii a <=? 57).

Definition timestamp_shape (s : string) : bool :=
  match list_ascii_of_string s with
  | [y1; y2; y3; y4; s1; m1; m2; s2; d1; d2; s3; h1; h2; s4; n1; n2; s5;
     c1; c2] =>
    forallb is_digit [y1; y2; y3; y4; m1; m2; d1; d2; h1; h2; n1; n2; c1; c2]
    && bool_decide ([s1; s2; s3; s4; s5]
                    = ["-"; "-"; " "; ":"; ":"]%char)
  | _ => false
  end.

(** What a run has printed once the files are loaded, and once the ledger
    is analysed. *)
Definition loading_trace (fs : Files) : list event :=
  (load_and_concatenate_participants
     (event_registration_visiteurs fs) (event_registration_benevoles fs)).1.

Definition ledger_trace (fs : Files) : list event :=
  (get_ineligible_participants (gagnants_combines fs)
     colonne_nom colonne_role).1.1.

Definition prompt_trace (fs : Files) (pool : DataFrame) : list event :=
  loading_trace fs ++ ledger_trace fs ++ [Print (TicketsEligibles (len pool))].

(** How many times a run reads the clock. *)
Definition is_clock_read (e : event) : bool :=
  match e with Now => true | _ => false end.

Definition clock_reads (t : list event) : nat :=
  length (filter (λ e, is_clock_read e = true) t).

(** ** Vocabulary of the pivot properties *)

(** The rows of a participant, in the order of the table. *)
Definition rows_of (k : string * string) (df : list answer_row)
    : list answer_row :=
  filter (λ r, identity r = Some k) df.

(** The answers of a participant, in the order of the table; a blank
    answer cell is no answer. *)
Definition answers_of (k : string * string) (df : list answer_row)
    : list string :=
  omap reponses_des_participants (rows_of k df).

(** The cells of an output line that are not NaN, in column order. *)
Definition filled_cells (p : pivoted_participant) : list string :=
  omap id (reponses p).

(** The number of rows before the first answer of the file. *)
Fixpoint leading_blanks (df : list answer_row) : nat :=
  match df with
  | [] => 0
  | r :: df' =>
    match reponses_des_participants r with
    | None => S (leading_blanks df')
    | Some _ => 0
    end
  end.

(** The answers of the rows that belong to a group (a name and an e-mail,
    and an answer), each with its group. *)
Definition table_answers (df : list answer_row)
    : list ((string * string) * string) :=
  omap (λ r, k ← identity r; a ← reponses_des_participants r; Some (k, a)) df.

(** The answers a pivoted table holds, each with its participant. *)
Definition pivot_answers (t : pivoted) : list ((string * string) * string) :=
  p ← participants t; (λ a, (participant p, a)) <$> filled_cells p.

(** The name and e-mail cells of a row, as the table has them: either may be
    blank. *)
Definition pair_of (r : answer_row) : text * text :=
  (nom_du_participant r, email r).

(** A pair with a name and an e-mail. *)
Definition complete (p : text * text) : Prop := is_Some p.1 ∧ is_Some p.2.

#[global] Instance complete_dec p : Decision (complete p).
Proof. unfold complete. apply _. Defined.

(** Every answer of a table, with the pair of its row. *)
Definition input_answers (df : list answer_row)
    : list ((text * text) * string) :=
  omap (λ r, (λ a, (pair_of r, a)) <$> reponses_des_participants r) df.

(** The pairs of the lines of a pivoted table, and its answers, each with
    the pair of its line. *)
Definition as_pair (k : string * string) : text * text :=
  (Some k.1, Some k.2).

Definition output_pairs (t : pivoted) : list (text * text) :=
  as_pair ∘ participant <$> participants t.

Definition output_answers (t : pivoted) : list ((text * text) * string) :=
  (λ e, (as_pair e.1, e.2)) <$> pivot_answers t.

(** ** Sample tables *)

Module Demo.
Definition participant (nom role ticket : string) : row :=
  {[ colonne_nom := Text nom;
     colonne_role := Text role;
     colonne_id_ticket := Text ticket ]}.

Definition header : list string :=
  [colonne_nom; colonne_role; colonne_id_ticket].

(** One visitor and two volunteers; the volunteer Bob holds two
    tickets. *)
Definition visiteurs : DataFrame :=
  mkDataFrame header [participant "Alice" "Visiteur" "T1"].

Definition benevoles : DataFrame :=
  mkDataFrame header
    [participant "Bob" "Benevole" "T2";
     participant "Chloe" "Benevole" "T3";
     participant "Bob" "Benevole" "T4"].

(** A ledger: Alice won as a visitor, Bob once and Chloe twice as
    volunteers. *)
Definition gagnants : DataFrame :=
  mkDataFrame (header ++ [heure_du_tirage])
    [<[heure_du_tirage := Text "2025-05-01 10:00:00"]>
       (participant "Alice" "Visiteur" "T1");
     <[heure_du_tirage := Text "2025-05-01 10:00:00"]>
       (participant "Bob" "Benevole" "T2");
     <[heure_du_tirage := Text "2025-05-01 10:00:00"]>
       (participant "Chloe" "Benevole" "T3");
     <[heure_du_tirage := Text "2025-05-02 10:00:00"]>
       (participant "Chloe" "Benevole" "T5")].

Definition fichiers : Files :=
  mkFiles (Some visiteurs) (Some benevoles) (Some gagnants).

(** The same candidates before any draw. *)
Definition premier_tirage : Files :=
  mkFiles (Some visiteurs) (Some benevoles) None.

(** Three candidates with one ticket each, all three in the ledger. *)
Definition tous_gagnants : Files :=
  mkFiles
    (Some visiteurs)
    (Some (mkDataFrame header
             [participant "Bob" "Benevole" "T2";
              participant "Chloe" "Benevole" "T3"]))
    (Some (mkDataFrame header
             [participant "Alice" "Visiteur" "T1";
              participant "Bob" "Benevole" "T2";
              participant "Chloe" "Benevole" "T3"])).

(** A ledger from before the role rule: tickets only. *)
Definition ancien_registre : DataFrame :=
  mkDataFrame [colonne_id_ticket] [{[ colonne_id_ticket := Text "T1" ]}].

Definition fichiers_anciens : Files :=
  mkFiles (Some visiteurs) (Some benevoles) (Some ancien_registre).

(** The registration file as exported: the participant is named on the
    first of their rows; Bob gave no answer. *)
Definition inscriptions : list answer_row :=
  [mkAnswer (Some "Alice") (Some "alice@rlq.test") (Some "Yes");
   mkAnswer None None (Some "No");
   mkAnswer (Some "Bob") (Some "bob@rlq.test") None].

(** The pivot example of the specification. *)
Definition reponses_completes : list answer_row :=
  [mkAnswer (Some "Alice") (Some "e1") (Some "Yes");
   mkAnswer (Some "Alice") (Some "e1") (Some "No");
   mkAnswer (Some "Bob") (Some "e2") (Some "Maybe")].

(** Answers of a participant registered without e-mail. *)
Definition sans_email : list answer_row :=
  [mkAnswer (Some "Alice") None (Some "Yes");
   mkAnswer (Some "Bob") (Some "bob@rlq.test") (Some "Maybe")].

Definition midi : datetime := mkDatetime 2025 5 3 12 0 0.
End Demo.

(** ** The preparation script

    [src/prepare_data/create_files.py], from the choice of the input file to
    the files the draw reads; [load_and_clean_data], which calls the
    [pyjanitor] cleaners, is not embedded. *)

Inductive level := INFO | SUCCESS | WARNING | ERROR.

Inductive prepare_message :=
  | CheckingInputDir
  | InputDirCreated
  | NoExcelFile
  | MultipleFiles (files : list string)
  | FileRenamed (original target : string)
  | AlreadyNamed (target : string)
  | NormalizingTickets
  | TicketColumnMissing
  | TicketsNormalized (unique_values : list cell)
  | CleaningStatus
  | StatusCleaned (unique_values : list cell)
  | InputIsNone
  | CleanedSaved
  | FilteringRole (role ticket_name : string)
  | PresentFound (count : nat) (role : string)
  | RoleSaved (role : string).

(** A line of the log. *)
Abbreviation logged := (level * prepare_message)%type.

(** *** Finding the input file *)

(** An entry of the input directory: a regular file and what it holds, or
    a sub-directory. *)
Inductive node (C : Type) :=
  | RegularFile (content : C)
  | Folder.
Arguments RegularFile {C} content.
Arguments Folder {C}.

Definition is_file {C} (n : node C) : bool :=
  match n with RegularFile _ => true | Folder => false end.

(** [s.endswith(suffix)] *)
Definition ends_with (suffix s : string) : bool :=
  bool_decide (list_ascii_of_string suffix
                 `suffix_of` list_ascii_of_string s).

(** [f.endswith((".xlsx", ".xls"))] *)
Definition is_excel_name (f : string) : bool :=
  ends_with ".xlsx" f || ends_with ".xls" f.

(** [files_in_dir]: the names [os.listdir] gives, in its order, that are
    regular files with an Excel name. *)
Definition files_in_dir {C} (dir : gmap string (node C)) : list string :=
  (map_to_list
     (filter (λ e, is_file e.2 = true ∧ is_excel_name e.1 = true) dir)).*1.

(** [os.rename(src, dst)] inside one directory: the entry moves to the new
    name and replaces a regular file that has it. *)
Definition rename {C} (src dst : string) (dir : gmap string (node C))
    : gmap string (node C) :=
  match dir !! src with
  | Some n => <[dst := n]> (delete src dir)
  | None => dir
  end.

(** How [find_and_prepare_input_file] ends: [os.rename] raises when the
    target name is taken by a directory. *)
Inductive find_outcome :=
  | ReturnsPath (target_filepath : string)
  | ReturnsNone
  | RaisesIsADirectoryError.

(** [find_and_prepare_input_file]: the input directory ([None] when it does
    not exist) and the target file name; the log, the outcome and the
    directory afterwards. A path inside the directory is given by its file
    name. *)
Definition find_and_prepare_input_file {C}
    (input_dir : option (gmap string (node C))) (target_filename : string)
    : list logged * find_outcome * option (gmap string (node C)) :=
  match input_dir with
  | None =>
    ([(INFO, CheckingInputDir); (ERROR, InputDirCreated)], ReturnsNone, Some ∅)
  | Some dir =>
    match files_in_dir dir with
    | [] =>
      ([(INFO, CheckingInputDir); (ERROR, NoExcelFile)], ReturnsNone, Some dir)
    | [original_filename] =>
      if decide (original_filename ≠ target_filename) then
        match dir !! target_filename with
        | Some Folder =>
          ([(INFO, CheckingInputDir)], RaisesIsADirectoryError, Some dir)
        | _ =>
          ([(INFO, CheckingInputDir);
            (SUCCESS, FileRenamed original_filename target_filename)],
           ReturnsPath target_filename,
           Some (rename original_filename target_filename dir))
        end
      else
        ([(INFO, CheckingInputDir); (INFO, AlreadyNamed target_filename)],
         ReturnsPath target_filename, Some dir)
    | files =>
      ([(INFO, CheckingInputDir); (ERROR, MultipleFiles files)],
       ReturnsNone, Some dir)
    end
  end.

(** *** Normalising the table *)

Definition colonne_status : string := "status".

(** [series.astype(str)]: the text of a cell; NaN reads 'nan'. *)
Definition astype_str (c : cell) : string :=
  match c with
  | None => "nan"
  | Some (Text s) => s
  | Some (Number z) => pretty z
  end.

(** [s.str.contains(pat)] for a pattern without special character: [pat]
    occurs in [s]. *)
Fixpoint contains (pat s : string) : bool :=
  String.prefix pat s
  || match s with
     | EmptyString => false
     | String _ s' => contains pat s'
     end.

(** [np.select(conditions, choices, default='Autre')]: the first condition
    that holds decides. *)
Definition ticket_kind (s : string) : string :=
  if contains "visiteur" s then "Visiteur"
  else if contains "bénévole" s || contains "benevole" s then "Benevole"
  else if contains "commanditaire" s then "Commanditaire"
  else "Autre".

(** [df[col] = series], the series computed row by row. *)
Definition set_column (c : string) (f : row → value) (df : DataFrame)
    : DataFrame :=
  mkDataFrame (if has_column c df then columns df else columns df ++ [c])
              ((λ r : row, <[c := f r]> r) <$> rows df).

(** [mapping.get(s, s)] for [{"Présent": "present", "Inscrit": "inscrit"}],
    as [series.replace] applies it. *)
Definition replace_status (s : string) : string :=
  if decide (s = "Présent") then "present"
  else if decide (s = "Inscrit") then "inscrit"
  else s.

Section text_functions.
(** [str.lower] and [str.strip] of Python, taken as they are. *)
Variable lower : string → string.
Variable strip : string → string.

(** [normalize_ticket_column] *)
Definition normalize_ticket_column (df : DataFrame)
    : list logged * DataFrame :=
  if negb (has_column colonne_role df) then
    ([(INFO, NormalizingTickets); (WARNING, TicketColumnMissing)], df)
  else
    let df' :=
      set_column colonne_role
        (λ r, Text (ticket_kind (lower (astype_str (r !! colonne_role)))))
        df in
    ([(INFO, NormalizingTickets);
      (SUCCESS, TicketsNormalized (unique (column_values colonne_role df')))],
     df').

(** The status of a row after [fillna("absent").astype(str).str.strip()]
    and the replacement. *)
Definition cleaned_status (r : row) : string :=
  replace_status
    (strip (match r !! colonne_status with
            | None => "absent"
            | Some v => astype_str (Some v)
            end)).

(** [clean_status_column]: [df["status"]] raises when the column is
    missing. *)
Definition clean_status_column (df : DataFrame)
    : list logged * result DataFrame :=
  if negb (has_column colonne_status df) then
    ([(INFO, CleaningStatus)], KeyError colonne_status)
  else
    let df' := set_column colonne_status (λ r, Text (cleaned_status r)) df in
    ([(INFO, CleaningStatus);
      (SUCCESS, StatusCleaned (unique (column_values colonne_status df')))],
     Ok df').
End text_functions.

(** *** Saving the files of the draw *)

(** The output directory: the cleaned table, the sponsors, and the three
    files of the draw script. *)
Record OutputFiles := mkOutputFiles {
  event_registration_cleaned : option DataFrame;
  event_registration_sponsors : option DataFrame;
  draw_files : Files;
}.

(** [(df["ticket_devenement"] == ticket_name) & (df["status"] == "present")] *)
Definition present_with (ticket_name : string) (r : row) : bool :=
  bool_decide (r !! colonne_role = Some (Text ticket_name))
  && bool_decide (r !! colonne_status = Some (Text "present")).

(** One turn of the loop over [participant_filters], the write apart. *)
Definition role_step (df : DataFrame) (role ticket_name : string)
    : list logged * DataFrame :=
  let df_present := select (present_with ticket_name) df in
  ([(INFO, FilteringRole role ticket_name);
    (SUCCESS, PresentFound (len df_present) role);
    (SUCCESS, RoleSaved role)],
   df_present).

(** [filter_and_save_participants]: the cleaned table is written first; the
    mask of the first turn raises when a column is missing. *)
Definition filter_and_save_participants (df : option DataFrame)
    (out : OutputFiles) : list logged * result unit * OutputFiles :=
  match df with
  | None => ([(ERROR, InputIsNone)], Ok tt, out)
  | Some df =>
    let out1 :=
      mkOutputFiles (Some df) (event_registration_sponsors out)
                    (draw_files out) in
    let t1 := [(SUCCESS, CleanedSaved)] in
    if negb (has_column colonne_role df) then
      (t1 ++ [(INFO, FilteringRole "sponsors" "Commanditaire")],
       KeyError colonne_role, out1)
    else if negb (has_column colonne_status df) then
      (t1 ++ [(INFO, FilteringRole "sponsors" "Commanditaire")],
       KeyError colonne_status, out1)
    else
      let '(t2, df_sponsors) := role_step df "sponsors" "Commanditaire" in
      let '(t3, df_benevoles) := role_step df "benevoles" "Benevole" in
      let '(t4, df_visiteurs) := role_step df "visiteurs" "Visiteur" in
      (t1 ++ t2 ++ t3 ++ t4, Ok tt,
       mkOutputFiles (Some df) (Some df_sponsors)
         (mkFiles (Some df_visiteurs) (Some df_benevoles)
                  (gagnants_combines (draw_files out))))
  end.

(** [main] of the preparation script from the cleaned table on (lines
    173-176): normalise the tickets, clean the status, filter and save. *)
Definition process_and_save (lower strip : string → string)
    (df_cleaned : DataFrame) (out : OutputFiles)
    : list logged * result unit * OutputFiles :=
  let '(t1, df_normalized) := normalize_ticket_column lower df_cleaned in
  match clean_status_column strip df_normalized with
  | (t2, KeyError c) => (t1 ++ t2, KeyError c, out)
  | (t2, Ok df_processed) =>
    let '(t3, r, out') :=
      filter_and_save_participants (Some df_processed) out in
    (t1 ++ t2 ++ t3, r, out')
  end.

(** ** Vocabulary of the properties of the whole draw script *)

(** The rows a candidate file contributes: none when the file is missing. *)
Definition file_rows (file : option DataFrame) : list row :=
  match file with Some df => rows df | None => [] end.

(** What one run is given: what the operator types, the random source and
    the clock. *)
Record session := mkSession {
  typed_count : operator_input;
  random_source : list nat;
  clock : datetime;
}.

(** The script run once per session, each run on the files the previous one
    left. *)
Fixpoint runs (fs : Files) (sessions : list session) : Files :=
  match sessions with
  | [] => fs
  | s :: rest =>
    runs (files (main fs (typed_count s) (random_source s) (clock s))) rest
  end.

(** The ledger file, when there is one, is a table [read_excel] can
    return. *)
Definition ledger_ok (fs : Files) : Prop :=
  ∀ g, gagnants_combines fs = Some g → table_ok g.

(** The names the role rule excludes on the files as they are. *)
Definition excluded_names (fs : Files) : list cell :=
  (get_ineligible_participants (gagnants_combines fs)
     colonne_nom colonne_role).1.2.

(** ** More sample files *)

Module Cas.
(** Candidates exported without the name column. *)
Definition sans_nom : Files :=
  mkFiles
    (Some (mkDataFrame [colonne_role; colonne_id_ticket]
             [{[ colonne_role := Text "Visiteur";
                 colonne_id_ticket := Number 1 ]}]))
    None
    (Some Demo.gagnants).

(** Candidates exported without the ticket column, against a ledger that
    has it. *)
Definition sans_ticket : Files :=
  mkFiles
    (Some (mkDataFrame [colonne_nom; colonne_role]
             [{[ colonne_nom := Text "Dan";
                 colonne_role := Text "Visiteur" ]}]))
    None
    (Some Demo.gagnants).

(** No candidate file at all. *)
Definition sans_candidat : Files :=
  mkFiles None None (Some Demo.gagnants).
End Cas.

(** ** Vocabulary of the properties of the whole pivot script *)

(** The three columns of the answers table. *)
Inductive filled_column := Nom | Email | Reponse.

Definition cell_of (c : filled_column) (r : answer_row) : text :=
  match c with
  | Nom => nom_du_participant r
  | Email => email r
  | Reponse => reponses_des_participants r
  end.

(** The export as the registration tool writes it: every row holds an
    answer; a row either names its participant, with name and e-mail, or
    leaves both blank and continues the participant above. *)
Definition export_row (r : answer_row) : Prop :=
  is_Some (reponses_des_participants r)
  ∧ (is_Some (nom_du_participant r) ↔ is_Some (email r)).

(** Each answer of an export with the participant it belongs to: the one
    its row names, or else the one of the rows above. *)
Fixpoint carried (current : option (string * string))
    (file : list answer_row) : list (option (string * string) * text) :=
  match file with
  | [] => []
  | r :: rest =>
    let cur := match identity r with Some k => Some k | None => current end in
    (cur, reponses_des_participants r) :: carried cur rest
  end.

(** The answers of participant [k] in an export, in order. *)
Definition carried_answers (k : string * string) (file : list answer_row)
    : list string :=
  omap (λ e, if decide (e.1 = Some k) then e.2 else None) (carried None file).

Module Cas2.
(** An export: Alice answers three times, Bob once. *)
Definition export : list answer_row :=
  [mkAnswer (Some "Alice") (Some "alice@rlq.test") (Some "Yes");
   mkAnswer None None (Some "No");
   mkAnswer (Some "Bob") (Some "bob@rlq.test") (Some "Maybe");
   mkAnswer (Some "Alice") (Some "alice@rlq.test") (Some "Later")].
End Cas2.

(** ** Sample input of the preparation script *)

Module Entree.
(** An input directory with one workbook under another name. *)
Definition dossier : gmap string (node unit) :=
  {[ "export_odoo.xlsx" := RegularFile tt;
     "lisez-moi.txt" := RegularFile tt;
     "archives" := Folder ]}.

(** An input directory where the target name is taken by a
    sub-directory. *)
Definition dossier_occupe : gmap string (node unit) :=
  {[ "export_odoo.xlsx" := RegularFile tt;
     "event_registration.xlsx" := Folder ]}.

(** [str.lower] on the letters A to Z. *)
Definition lower_char (a : ascii) : ascii :=
  let n := nat_of_ascii a in
  if (65 <=? n) && (n <=? 90) then ascii_of_nat (n + 32) else a.

Fixpoint lower (s : string) : string :=
  match s with
  | EmptyString => EmptyString
  | String a s' => String (lower_char a) (lower s')
  end.

(** [str.strip] for blanks, tabs and line ends. *)
Definition is_blank (a : ascii) : bool :=
  let n := nat_of_ascii a in
  (n =? 32) || ((9 <=? n) && (n <=? 13)).

Fixpoint lstrip (s : string) : string :=
  match s with
  | EmptyString => EmptyString
  | String a s' => if is_blank a then lstrip s' else s
  end.

Definition strip (s : string) : string :=
  String.rev (lstrip (String.rev (lstrip s))).

Definition inscrit (nom ticket : string) (status : cell) (numero : Z) : row :=
  let r : row := {[ colonne_nom := Text nom;
                    colonne_role := Text ticket;
                    colonne_id_ticket := Number numero ]} in
  match status with
  | Some v => <[colonne_status := v]> r
  | None => r
  end.

(** A cleaned registration table, before normalisation. *)
Definition df_cleaned : DataFrame :=
  mkDataFrame [colonne_nom; colonne_role; colonne_status; colonne_id_ticket]
    [inscrit "Alice" "Billet Visiteur" (Some (Text "Présent")) 1;
     inscrit "Bob" "Bénévole - samedi" (Some (Text " Présent ")) 2;
     inscrit "Carla" "COMMANDITAIRE Or" (Some (Text "Présent")) 3;
     inscrit "Dan" "Visiteur" None 4;
     inscrit "Eve" "Conférencier" (Some (Text "Inscrit")) 5;
     inscrit "Fay" "benevole" (Some (Text "present")) 6].

Definition vide : OutputFiles :=
  mkOutputFiles None None (mkFiles None None None).
End Entree.
(** ** Lists of distinct cells *)

Section unique.
Context {A : Type} `{EqDecision A}.
Implicit Types (x : A) (l : list A).

Lemma elem_of_unique x l : x ∈ unique l ↔ x ∈ l.
Proof.
  induction l as [|y l IH]; simpl; [done|].
  rewrite !elem_of_cons, list_elem_of_filter, IH.
  destruct (decide (x = y)); naive_solver.
Qed.

Lemma NoDup_unique l : NoDup (unique l).
Proof.
  induction l as [|y l IH]; simpl; [constructor|].
  constructor; [|by apply NoDup_filter].
  rewrite list_elem_of_filter. naive_solver.
Qed.
End unique.

Lemma occurrences_pos v (l : list cell) : 0 < occurrences v l ↔ Some v ∈ l.
Proof.
  unfold occurrences. induction l as [|c l IH]; simpl.
  - rewrite elem_of_nil. simpl. lia.
  - rewrite filter_cons, elem_of_cons. case_decide; simpl; [naive_solver lia|].
    rewrite IH. naive_solver.
Qed.

Lemma elem_of_value_counts v n (l : list cell) :
  (v, n) ∈ value_counts l ↔ Some v ∈ l ∧ n = occurrences v l.
Proof.
  unfold value_counts. rewrite list_elem_of_fmap. split.
  - intros (w & [= -> ->] & Hw). apply elem_of_unique, list_elem_of_omap in Hw.
    destruct Hw as (c & Hc & Hid). simpl in Hid. subst c. done.
  - intros [Hv ->]. exists v. split; [done|].
    apply elem_of_unique, list_elem_of_omap. by exists (Some v).
Qed.

(** ** The role rule *)

Lemma is_benevole_true role (r : row) :
  is_benevole role r = true ↔ r !! role = Some (Text "Benevole").
Proof. unfold is_benevole. by rewrite bool_decide_eq_true. Qed.

Lemma is_benevole_false role (r : row) :
  negb (is_benevole role r) = true ↔ r !! role ≠ Some (Text "Benevole").
Proof.
  unfold is_benevole. by rewrite negb_true_iff, bool_decide_eq_false.
Qed.

Lemma elem_of_column_select c keep g (x : cell) :
  x ∈ column_values c (select keep g)
  ↔ ∃ r : row, r ∈ rows g ∧ keep r = true ∧ r !! c = x.
Proof.
  unfold column_values, select. simpl. rewrite list_elem_of_fmap.
  setoid_rewrite list_elem_of_filter. naive_solver.
Qed.

Lemma occurrences_column_select c keep g v :
  occurrences v (column_values c (select keep g))
  = length (filter (λ r : row, keep r = true ∧ r !! c = Some v) (rows g)).
Proof.
  unfold occurrences, column_values, select. simpl.
  induction (rows g) as [|r l IH]; [done|].
  rewrite (filter_cons (λ r : row, keep r = true)).
  rewrite (filter_cons (λ r : row, keep r = true ∧ r !! c = Some v)).
  destruct (decide (keep r = true)) as [Hk|Hk].
  - rewrite fmap_cons, filter_cons.
    destruct (decide (r !! c = Some v)) as [Hc|Hc].
    + rewrite decide_True by done. simpl. by rewrite IH.
    + rewrite decide_False by tauto. done.
  - rewrite decide_False by tauto. done.
Qed.

(** The names the function returns, when the ledger is not empty and has
    both columns. *)
Lemma ineligible_names_eq g name role :
  is_empty g = false → has_column name g = true → has_column role g = true →
  ineligible_names g name role
  = unique
      (unique (column_values name
                 (select (λ r, negb (is_benevole role r)) g))
       ++ ((λ p, Some (fst p))
             <$> filter (λ p, 2 ≤ snd p)
                   (value_counts
                      (column_values name (select (is_benevole role) g))))).
Proof.
  intros He Hn Hr. unfold ineligible_names, get_ineligible_participants.
  by rewrite He, Hn, Hr.
Qed.

Lemma ineligible_names_empty g name role :
  is_empty g = true → ineligible_names g name role = [].
Proof.
  intros He. unfold ineligible_names, get_ineligible_participants.
  by rewrite He.
Qed.

Lemma is_empty_rows c g :
  has_column c g = true → is_empty g = true → rows g = [].
Proof.
  unfold has_column, is_empty. intros Hc He.
  apply bool_decide_eq_true in Hc. apply orb_true_iff in He as [He|He].
  - by apply bool_decide_eq_true in He.
  - apply bool_decide_eq_true in He. rewrite He in Hc.
    by apply elem_of_nil in Hc.
Qed.

Lemma elem_of_ineligible_names g name role v :
  has_column name g = true → has_column role g = true →
  Some v ∈ ineligible_names g name role
  ↔ won_as_other name role g v ∨ 2 ≤ wins_as_benevole name role g v.
Proof.
  intros Hn Hr. destruct (is_empty g) eqn:He.
  { rewrite ineligible_names_empty by done.
    unfold won_as_other, wins_as_benevole.
    rewrite (is_empty_rows name g) by done. simpl.
    rewrite elem_of_nil. split; [done|].
    intros [(r & Hin & _)|?]; [by apply elem_of_nil in Hin|lia]. }
  rewrite ineligible_names_eq by done.
  rewrite elem_of_unique, elem_of_app, elem_of_unique.
  rewrite elem_of_column_select, list_elem_of_fmap.
  unfold won_as_other, wins_as_benevole.
  setoid_rewrite is_benevole_false.
  apply or_iff_compat_l. split.
  - intros ([w n] & [= <-] & Hp). apply list_elem_of_filter in Hp.
    destruct Hp as [Hge Hp]. simpl in *.
    apply elem_of_value_counts in Hp. destruct Hp as [_ ->].
    rewrite occurrences_column_select in Hge.
    erewrite list_filter_iff in Hge; [exact Hge|].
    intros r. simpl. by rewrite is_benevole_true.
  - intros Hge.
    assert (occurrences v (column_values name (select (is_benevole role) g))
            = wins_as_benevole name role g v) as Hocc.
    { rewrite occurrences_column_select. unfold wins_as_benevole.
      f_equal. apply list_filter_iff. intros r. simpl.
      by rewrite is_benevole_true. }
    unfold wins_as_benevole in Hocc.
    exists (v, occurrences v
                 (column_values name (select (is_benevole role) g))).
    split; [done|]. apply list_elem_of_filter. simpl. split; [lia|].
    apply elem_of_value_counts. split; [|done].
    apply occurrences_pos. lia.
Qed.

Lemma length_filter_split {A} (P Q : A → Prop)
    `{∀ x, Decision (P x)} `{∀ x, Decision (Q x)} (l : list A) :
  length (filter P l)
  = length (filter (λ x, Q x ∧ P x) l) + length (filter (λ x, ¬ Q x ∧ P x) l).
Proof.
  induction l as [|x l IH]; [done|]. rewrite !filter_cons.
  destruct (decide (P x)), (decide (Q x));
    repeat (first [rewrite decide_True by tauto
                  |rewrite decide_False by tauto]); simpl; lia.
Qed.

Lemma length_filter_pos {A} (P : A → Prop) `{∀ x, Decision (P x)}
    (l : list A) :
  0 < length (filter P l) → ∃ x, x ∈ l ∧ P x.
Proof.
  destruct (filter P l) as [|x k] eqn:E; simpl; [lia|]. intros _.
  assert (x ∈ filter P l) as Hx by (rewrite E; left).
  apply list_elem_of_filter in Hx. naive_solver.
Qed.

(** The wins of a name split into those as 'Benevole' and the others. *)
Lemma wins_split name role g v :
  wins name g v
  = wins_as_benevole name role g v
    + length (filter (λ r : row, r !! role ≠ Some (Text "Benevole")
                                 ∧ r !! name = Some v) (rows g)).
Proof.
  unfold wins, wins_as_benevole.
  apply (length_filter_split _ (λ r : row, r !! role = Some (Text "Benevole"))).
Qed.

Lemma wins_no_other name role g v :
  ¬ won_as_other name role g v →
  wins name g v = wins_as_benevole name role g v.
Proof.
  intros Hno. rewrite (wins_split name role).
  pose proof (length_filter_pos
                (λ r : row, r !! role ≠ Some (Text "Benevole")
                            ∧ r !! name = Some v) (rows g)) as Hpos.
  destruct (length (filter _ (rows g))); [lia|].
  destruct Hno, Hpos as (r & ? & ? & ?); [lia|]. by exists r.
Qed.

(** ** The eligible pool *)

Lemma elem_of_select keep df (r : row) :
  r ∈ rows (select keep df) ↔ r ∈ rows df ∧ keep r = true.
Proof. unfold select. simpl. rewrite list_elem_of_filter. tauto. Qed.

Lemma isin_false (c : cell) l : negb (isin c l) = true ↔ c ∉ l.
Proof. unfold isin. by rewrite negb_true_iff, bool_decide_eq_false. Qed.

Lemma elem_of_filter_eligible df_entree names df_g eligibles (c : row) :
  filter_eligible df_entree names df_g = Ok eligibles →
  (c ∈ rows eligibles
   ↔ c ∈ rows df_entree ∧ c !! colonne_nom ∉ names ∧ ticket_free df_g c).
Proof.
  unfold filter_eligible, ticket_free.
  destruct (has_column colonne_nom df_entree); simpl; [|done].
  destruct df_g as [g|].
  - destruct (has_column colonne_id_ticket g) eqn:Ht.
    + destruct (has_column colonne_id_ticket (select _ df_entree)); simpl;
        [|done].
      intros [= <-]. rewrite !elem_of_select, !isin_false.
      split; [naive_solver|]. intros (? & ? & Hf). repeat split; [done|done|]. exact (Hf g eq_refl Ht).
    + intros [= <-]. rewrite elem_of_select, isin_false.
      split; [|tauto]. intros [? ?]. repeat split; [done|done|].
      intros g0 [= <-] Ht'. congruence.
  - intros [= <-]. rewrite elem_of_select, isin_false.
    split; [|tauto]. intros [? ?]. repeat split; [done|done|]. by intros g0.
Qed.

Lemma columns_filter_eligible df_entree names df_g eligibles :
  filter_eligible df_entree names df_g = Ok eligibles →
  columns eligibles = columns df_entree.
Proof.
  unfold filter_eligible.
  destruct (has_column colonne_nom df_entree); simpl; [|done].
  destruct df_g as [g|]; [|by intros [= <-]].
  destruct (has_column colonne_id_ticket g); [|by intros [= <-]].
  destruct (has_column colonne_id_ticket (select _ df_entree)); simpl;
    [|done].
  by intros [= <-].
Qed.

(** A blank name is among the names returned exactly when the ledger has an
    entry without name whose role is not 'Benevole'. *)
Lemma blank_name_ineligible g name role :
  is_empty g = false → has_column name g = true → has_column role g = true →
  None ∈ ineligible_names g name role
  ↔ ∃ r : row, r ∈ rows g ∧ r !! role ≠ Some (Text "Benevole")
               ∧ r !! name = None.
Proof.
  intros He Hn Hr. rewrite ineligible_names_eq by done.
  rewrite elem_of_unique, elem_of_app, elem_of_unique.
  rewrite elem_of_column_select, list_elem_of_fmap.
  setoid_rewrite is_benevole_false. split; [|by left].
  intros [?|(p & ? & _)]; done.
Qed.

(** C1. For a ledger that has the name and role columns, the names
    [get_ineligible_participants] returns are exactly the names with a ledger
    entry whose role is not 'Benevole', together with the names with two or
    more 'Benevole' entries (counted among the 'Benevole' entries, or, which
    comes to the same, among all entries of a name that has a 'Benevole'
    entry); each name is listed once. So, in [main], a candidate whose name
    won once in another role, or twice as 'Benevole', is out of the eligible
    pool, and a candidate whose name has at most one entry, as 'Benevole',
    passes the role rule: such a row is in the pool exactly when the ticket
    rule keeps it. *)
Theorem ineligible_names_role_rule (g : DataFrame) (name role : string) :
  has_column name g = true → has_column role g = true →
  (∀ v, Some v ∈ ineligible_names g name role
        ↔ won_as_other name role g v ∨ 2 ≤ wins_as_benevole name role g v)
  ∧ (∀ v, Some v ∈ ineligible_names g name role
          ↔ won_as_other name role g v
            ∨ (0 < wins_as_benevole name role g v ∧ 2 ≤ wins name g v))
  ∧ NoDup (ineligible_names g name role)
  ∧ (name = colonne_nom →
     ∀ df_entree eligibles (c : row) v,
       filter_eligible df_entree (ineligible_names g name role) (Some g)
         = Ok eligibles →
       c ∈ rows df_entree → c !! colonne_nom = Some v →
       (won_as_other name role g v ∨ 2 ≤ wins_as_benevole name role g v →
        c ∉ rows eligibles)
       ∧ (¬ won_as_other name role g v → wins name g v ≤ 1 →
          (c ∈ rows eligibles ↔ ticket_free (Some g) c))).
Proof.
  intros Hn Hr.
  pose proof (λ v, elem_of_ineligible_names g name role v Hn Hr) as Hin.
  split; [done|]. split; [|split].
  - intros v. rewrite Hin. split.
    + intros [Ho|Hb]; [by left|]. right.
      pose proof (wins_split name role g v). lia.
    + intros [Ho|[Hb Hw]]; [by left|].
      destruct (decide (2 ≤ wins_as_benevole name role g v)); [by right|].
      left. rewrite (wins_split name role) in Hw.
      destruct (length_filter_pos
                  (λ r : row, r !! role ≠ Some (Text "Benevole")
                              ∧ r !! name = Some v) (rows g))
        as (r & ? & ? & ?); [lia|]. by exists r.
  - destruct (is_empty g) eqn:He.
    + rewrite ineligible_names_empty by done. constructor.
    + rewrite ineligible_names_eq by done. apply NoDup_unique.
  - intros -> df_entree eligibles c v Hok Hc Hv.
    pose proof (elem_of_filter_eligible _ _ _ _ c Hok) as Hel.
    split.
    + intros Hex. rewrite Hel, Hv, Hin. tauto.
    + intros Hno Hw. rewrite Hel, Hv, Hin.
      rewrite (wins_no_other _ role) in Hw by done.
      split; [tauto|]. intros Ht. repeat split; [done| |done].
      intros [?|?]; [done|lia].
Qed.

Lemma ineligible_names_role_rule_witness :
  (∀ v, Some v ∈ ineligible_names Demo.gagnants colonne_nom colonne_role
        ↔ won_as_other colonne_nom colonne_role Demo.gagnants v
          ∨ 2 ≤ wins_as_benevole colonne_nom colonne_role Demo.gagnants v)
  ∧ ineligible_names Demo.gagnants colonne_nom colonne_role
    = [Some (Text "Alice"); Some (Text "Chloe")].
Proof.
  split; [|by vm_compute].
  apply (ineligible_names_role_rule Demo.gagnants colonne_nom colonne_role);
    reflexivity.
Defined.

(** ** The run, step by step *)

Lemma main_unfold fs typed seed now :
  main fs typed seed now
  = if is_empty (candidates fs) then
      mkRun (loading_trace fs ++ [Print AucunParticipant])
            StoppedNoParticipant fs
    else match eligible_pool fs with
         | KeyError c =>
           mkRun (loading_trace fs ++ ledger_trace fs) (Uncaught c) fs
         | Ok pool =>
           if is_empty pool then
             mkRun (prompt_trace fs pool ++ [Print PlusDeTicketsEligibles])
                   StoppedNoEligibleTicket fs
           else draw_and_save fs (prompt_trace fs pool) pool (ledger_read fs)
                              typed seed now
         end.
Proof.
  unfold main, eligible_pool, candidates, ledger_read, prompt_trace,
    loading_trace, ledger_trace.
  destruct (load_and_concatenate_participants _ _) as [t1 df_entree].
  destruct (get_ineligible_participants _ _ _) as [[t2 names] df_g].
  reflexivity.
Qed.

Lemma ledger_read_eq fs : ledger_read fs = gagnants_combines fs.
Proof.
  unfold ledger_read, get_ineligible_participants.
  destruct (gagnants_combines fs) as [g|]; [|done].
  destruct (is_empty g); [done|]. by destruct (_ || _).
Qed.

Lemma no_draw_effect_app t1 t2 :
  no_draw_effect (t1 ++ t2) ↔ no_draw_effect t1 ∧ no_draw_effect t2.
Proof. apply Forall_app. Qed.

Lemma no_draw_effect_loading fs : no_draw_effect (loading_trace fs).
Proof.
  unfold loading_trace, load_and_concatenate_participants, load_one.
  destruct (event_registration_visiteurs fs),
    (event_registration_benevoles fs); simpl;
    repeat constructor.
Qed.

Lemma no_draw_effect_ledger fs : no_draw_effect (ledger_trace fs).
Proof.
  unfold ledger_trace, get_ineligible_participants.
  destruct (gagnants_combines fs) as [g|]; [|repeat constructor].
  destruct (is_empty g); [constructor|].
  destruct (_ || _); repeat constructor.
Qed.

Lemma no_draw_effect_prompt fs pool : no_draw_effect (prompt_trace fs pool).
Proof.
  unfold prompt_trace. rewrite !no_draw_effect_app.
  split; [apply no_draw_effect_loading|].
  split; [apply no_draw_effect_ledger|repeat constructor].
Qed.

Lemma Input_not_in_prompt fs pool : Input ∉ prompt_trace fs pool.
Proof.
  unfold prompt_trace, loading_trace, ledger_trace,
    load_and_concatenate_participants, load_one, get_ineligible_participants.
  destruct (event_registration_visiteurs fs),
    (event_registration_benevoles fs), (gagnants_combines fs) as [g|]; simpl;
    try destruct (is_empty g); try destruct (_ || _); simpl;
    rewrite ?elem_of_cons, ?elem_of_nil; naive_solver.
Qed.

(** A refused count ends the run at the prompt. *)
Lemma draw_and_save_refused fs t pool df_g typed seed now :
  (typed = NotAnInteger ∨ ∃ n, typed = Entered n ∧ (n ≤ 0)%Z) →
  draw_and_save fs t pool df_g typed seed now
  = match typed with
    | NotAnInteger =>
      mkRun (t ++ [Input; Print EntierInvalide]) StoppedInvalidInteger fs
    | Entered _ =>
      mkRun (t ++ [Input; Print NombreNonPositif]) StoppedNonPositive fs
    end.
Proof.
  intros [->|(n & -> & Hn)]; simpl; [done|]. by rewrite decide_True.
Qed.

(** Too few eligible rows end the run at the prompt. *)
Lemma draw_and_save_not_enough fs t pool df_g n seed now :
  (0 < n)%Z → (Z.of_nat (len pool) < n)%Z →
  draw_and_save fs t pool df_g (Entered n) seed now
  = mkRun (t ++ [Input; Print (PasAssezDeParticipants (len pool) n)])
          (StoppedNotEnough (len pool) n) fs.
Proof.
  intros Hpos Hlt. simpl. rewrite decide_False by lia.
  by rewrite decide_True.
Qed.

(** A valid count within the pool draws and saves. *)
Lemma draw_and_save_drawn fs t pool df_g n seed now :
  (0 < n)%Z → (n ≤ Z.of_nat (len pool))%Z →
  let nouveaux :=
    assign heure_du_tirage (Text (strftime now))
           (sample seed (Z.to_nat n) pool) in
  let final := df_final_gagnants df_g nouveaux in
  draw_and_save fs t pool df_g (Entered n) seed now
  = mkRun (t ++ [Input; Sample (Z.to_nat n); Now;
                 Print (NouveauxGagnants n nouveaux);
                 ToExcel final; Print ListeMiseAJour])
          (Drawn nouveaux)
          (mkFiles (event_registration_visiteurs fs)
                   (event_registration_benevoles fs) (Some final)).
Proof.
  intros Hpos Hle. simpl. rewrite decide_False by lia.
  by rewrite decide_False by lia.
Qed.

(** C8. When what the operator types is not an integer, or is an integer
    that is zero or negative, the run leaves the three files as they were,
    samples nothing, does not read the clock, writes no ledger and does not
    end in a draw; when the run gets as far as the prompt, it ends there with
    the matching message as the last thing printed. *)
Theorem refused_count_no_side_effect fs typed seed now :
  (typed = NotAnInteger ∨ ∃ n, typed = Entered n ∧ (n ≤ 0)%Z) →
  let run := main fs typed seed now in
  files run = fs
  ∧ no_draw_effect (trace run)
  ∧ (∀ df, ending run ≠ Drawn df)
  ∧ (Input ∈ trace run →
     match typed with
     | NotAnInteger =>
       ending run = StoppedInvalidInteger
       ∧ ∃ t, trace run = t ++ [Input; Print EntierInvalide]
     | Entered _ =>
       ending run = StoppedNonPositive
       ∧ ∃ t, trace run = t ++ [Input; Print NombreNonPositif]
     end).
Proof.
  intros Hbad. simpl. rewrite main_unfold.
  destruct (is_empty (candidates fs)); simpl.
  { split; [done|]. split.
    - apply no_draw_effect_app. split; [apply no_draw_effect_loading|].
      repeat constructor.
    - split; [done|]. intros Hin. exfalso.
      apply elem_of_app in Hin as [Hin|Hin].
      + pose proof (Input_not_in_prompt fs empty_frame) as Hp.
        apply Hp. unfold prompt_trace. set_solver.
      + set_solver. }
  destruct (eligible_pool fs) as [pool|c]; simpl.
  2:{ split; [done|]. split.
      - apply no_draw_effect_app.
        split; [apply no_draw_effect_loading|apply no_draw_effect_ledger].
      - split; [done|]. intros Hin. exfalso.
        pose proof (Input_not_in_prompt fs empty_frame) as Hp.
        apply Hp. unfold prompt_trace. set_solver. }
  destruct (is_empty pool); simpl.
  { split; [done|]. split.
    - apply no_draw_effect_app. split; [apply no_draw_effect_prompt|].
      repeat constructor.
    - split; [done|]. intros Hin. exfalso.
      apply elem_of_app in Hin as [Hin|Hin].
      + by apply Input_not_in_prompt in Hin.
      + set_solver. }
  rewrite draw_and_save_refused by done.
  destruct typed as [|n]; simpl.
  - split; [done|]. split.
    + apply no_draw_effect_app. split; [apply no_draw_effect_prompt|].
      repeat constructor.
    + split; [done|]. intros _. split; [done|]. by eexists.
  - split; [done|]. split.
    + apply no_draw_effect_app. split; [apply no_draw_effect_prompt|].
      repeat constructor.
    + split; [done|]. intros _. split; [done|]. by eexists.
Qed.

Lemma refused_count_no_side_effect_witness :
  (∃ n, Entered 0 = Entered n ∧ (n ≤ 0)%Z)
  ∧ files (main Demo.fichiers (Entered 0) [] Demo.midi) = Demo.fichiers
  ∧ no_draw_effect (trace (main Demo.fichiers (Entered 0) [] Demo.midi)).
Proof.
  assert (∃ n, Entered 0 = Entered n ∧ (n ≤ 0)%Z) as H
    by (exists 0%Z; split; [reflexivity|lia]).
  split; [exact H|].
  destruct (refused_count_no_side_effect Demo.fichiers (Entered 0) []
              Demo.midi (or_intror H)) as (Hf & Ht & _).
  split; [exact Hf|exact Ht].
Defined.

(** C2, as the code has it. With candidates loaded and an eligible pool
    computed, a requested count above the size of the pool never draws: the
    three files are left as they were and nothing is sampled, stamped or
    written. When the pool is not empty the run ends at the prompt with the
    message that gives the size of the pool and the requested count; when the
    pool is empty the run has already ended before the prompt, with the
    message that no eligible ticket is left, and the count is never asked. *)
Theorem count_above_pool_never_draws fs pool n seed now :
  is_empty (candidates fs) = false →
  eligible_pool fs = Ok pool →
  (Z.of_nat (len pool) < n)%Z →
  let run := main fs (Entered n) seed now in
  files run = fs
  ∧ no_draw_effect (trace run)
  ∧ (∀ df, ending run ≠ Drawn df)
  ∧ (len pool ≠ 0 →
     ending run = StoppedNotEnough (len pool) n
     ∧ trace run
       = prompt_trace fs pool
         ++ [Input; Print (PasAssezDeParticipants (len pool) n)])
  ∧ (len pool = 0 →
     ending run = StoppedNoEligibleTicket
     ∧ trace run = prompt_trace fs pool ++ [Print PlusDeTicketsEligibles]
     ∧ Input ∉ trace run).
Proof.
  intros Hcand Hpool Hlt. cbv zeta. rewrite main_unfold, Hcand, Hpool.
  destruct (is_empty pool) eqn:Hemp.
  - simpl. split; [done|]. split.
    { apply no_draw_effect_app. split; [apply no_draw_effect_prompt|].
      repeat constructor. }
    split; [done|]. split.
    + intros Hne. exfalso. unfold is_empty in Hemp.
      apply orb_true_iff in Hemp as [Hr|Hc].
      * apply bool_decide_eq_true in Hr. unfold len in Hne.
        by rewrite Hr in Hne.
      * apply bool_decide_eq_true in Hc.
        rewrite (columns_filter_eligible _ _ _ _ Hpool) in Hc.
        unfold is_empty in Hcand. apply orb_false_iff in Hcand as [_ Hcand].
        by apply bool_decide_eq_false in Hcand.
    + intros _. split; [done|]. split; [done|].
      intros Hin. apply elem_of_app in Hin as [Hin|Hin].
      * by apply Input_not_in_prompt in Hin.
      * set_solver.
  - assert (len pool ≠ 0) as Hne.
    { unfold is_empty in Hemp. apply orb_false_iff in Hemp as [Hr _].
      apply bool_decide_eq_false in Hr. unfold len.
      by destruct (rows pool). }
    rewrite draw_and_save_not_enough by lia. simpl.
    split; [done|]. split.
    { apply no_draw_effect_app. split; [apply no_draw_effect_prompt|].
      repeat constructor. }
    split; [done|]. split; [done|]. intros ?. done.
Qed.

Lemma count_above_pool_never_draws_witness :
  is_empty (candidates Demo.fichiers) = false
  ∧ (∃ pool, eligible_pool Demo.fichiers = Ok pool ∧ len pool = 1)
  ∧ ending (main Demo.fichiers (Entered 2) [] Demo.midi)
    = StoppedNotEnough 1 2
  ∧ files (main Demo.fichiers (Entered 2) [] Demo.midi) = Demo.fichiers.
Proof.
  split; [by vm_compute|].
  destruct (eligible_pool Demo.fichiers) as [pool|c] eqn:Hpool;
    [|by vm_compute in Hpool].
  assert (len pool = 1) as Hlen by (by vm_compute in Hpool; injection Hpool as <-).
  split; [by exists pool|].
  destruct (count_above_pool_never_draws Demo.fichiers pool 2 []
              Demo.midi) as (Hf & _ & _ & Hne & _);
    [by vm_compute|done|rewrite Hlen; lia|].
  rewrite Hlen in Hne. destruct Hne as [He _]; [lia|]. done.
Defined.

(** The case the specification's scenario ends on: every candidate is in
    the ledger, the eligible pool is empty and the operator wants one winner.
    The run does not end on the count check: it has stopped before the
    prompt. *)
Lemma empty_pool_stops_before_prompt :
  (∃ pool, eligible_pool Demo.tous_gagnants = Ok pool ∧ len pool = 0)
  ∧ ending (main Demo.tous_gagnants (Entered 1) [] Demo.midi)
    = StoppedNoEligibleTicket
  ∧ ending (main Demo.tous_gagnants (Entered 1) [] Demo.midi)
    ≠ StoppedNotEnough 0 1
  ∧ Input ∉ trace (main Demo.tous_gagnants (Entered 1) [] Demo.midi)
  ∧ Print (PasAssezDeParticipants 0 1)
    ∉ trace (main Demo.tous_gagnants (Entered 1) [] Demo.midi).
Proof.
  split.
  { eexists. split; [by vm_compute|]. by vm_compute. }
  split; [by vm_compute|]. split; [by vm_compute|].
  split;
    match goal with
    | |- _ ∉ ?t => let t' := eval vm_compute in t in change t with t'
    end; rewrite !elem_of_cons, elem_of_nil; naive_solver.
Qed.

(** ** Degraded mode and the empty ledger *)

Lemma select_all keep df :
  (∀ r : row, r ∈ rows df → keep r = true) → select keep df = df.
Proof.
  intros Hall. destruct df as [cols rs]. unfold select. simpl in *. f_equal.
  induction rs as [|r rs IH]; [done|].
  rewrite filter_cons, decide_True by (apply Hall; left).
  f_equal. apply IH. intros r' Hr'. apply Hall. by right.
Qed.

Lemma filter_eligible_no_name df_entree df_g :
  has_column colonne_nom df_entree = true →
  (∀ g, df_g = Some g → has_column colonne_id_ticket g = true →
        has_column colonne_id_ticket df_entree = true) →
  ∃ eligibles, filter_eligible df_entree [] df_g = Ok eligibles.
Proof.
  intros Hn Ht. unfold filter_eligible. rewrite Hn. simpl.
  destruct df_g as [g|]; [|by eexists].
  destruct (has_column colonne_id_ticket g) eqn:Hg; [|by eexists].
  rewrite select_all by (intros; first [done|apply isin_false, not_elem_of_nil]).
  rewrite (Ht g) by done. by eexists.
Qed.

(** C5. For a ledger that is not empty and lacks the name column or the
    role column, [get_ineligible_participants] prints the warning, returns no
    name and hands the ledger back. In [main], with candidates that have the
    name column (and the ticket column when the ledger has it), the eligible
    pool is then computed without error: a candidate row is in it exactly when
    the ticket rule keeps it, whatever its name. *)
Theorem missing_columns_ticket_only (g : DataFrame) (name role : string) :
  is_empty g = false →
  has_column name g = false ∨ has_column role g = false →
  get_ineligible_participants (Some g) name role
  = ([Print (ColonnesManquantes name role)], [], Some g)
  ∧ (name = colonne_nom → role = colonne_role →
     ∀ fs, gagnants_combines fs = Some g →
       has_column colonne_nom (candidates fs) = true →
       (has_column colonne_id_ticket g = true →
        has_column colonne_id_ticket (candidates fs) = true) →
       ledger_trace fs
       = [Print (ColonnesManquantes colonne_nom colonne_role)]
       ∧ ∃ pool, eligible_pool fs = Ok pool
           ∧ columns pool = columns (candidates fs)
           ∧ ∀ c : row,
               c ∈ rows pool
               ↔ c ∈ rows (candidates fs)
                 ∧ (has_column colonne_id_ticket g = true →
                    c !! colonne_id_ticket
                      ∉ column_values colonne_id_ticket g)).
Proof.
  intros He Hmiss.
  assert (get_ineligible_participants (Some g) name role
          = ([Print (ColonnesManquantes name role)], [], Some g)) as Heq.
  { unfold get_ineligible_participants. rewrite He.
    by destruct Hmiss as [-> | ->]; rewrite ?orb_true_r. }
  split; [done|]. intros -> -> fs Hfs Hn Ht.
  unfold ledger_trace, eligible_pool, ledger_read. rewrite Hfs, Heq. simpl.
  split; [done|].
  destruct (filter_eligible_no_name (candidates fs) (Some g) Hn)
    as [pool Hpool].
  { by intros g' [= <-]. }
  exists pool. split; [done|].
  split; [by apply columns_filter_eligible in Hpool|].
  intros c. rewrite (elem_of_filter_eligible _ _ _ _ c Hpool).
  unfold ticket_free. split.
  - intros (? & _ & Hf). split; [done|]. intros Hg. by apply (Hf g).
  - intros (? & Hf). repeat split; [done|apply not_elem_of_nil|].
    intros g' [= <-]. done.
Qed.

Lemma missing_columns_ticket_only_witness :
  is_empty Demo.ancien_registre = false
  ∧ (has_column colonne_nom Demo.ancien_registre = false
     ∨ has_column colonne_role Demo.ancien_registre = false)
  ∧ get_ineligible_participants (Some Demo.ancien_registre)
      colonne_nom colonne_role
    = ([Print (ColonnesManquantes colonne_nom colonne_role)], [],
       Some Demo.ancien_registre)
  ∧ ∃ pool, eligible_pool Demo.fichiers_anciens = Ok pool
      ∧ columns pool = columns (candidates Demo.fichiers_anciens).
Proof.
  assert (is_empty Demo.ancien_registre = false) as He by reflexivity.
  assert (has_column colonne_nom Demo.ancien_registre = false
          ∨ has_column colonne_role Demo.ancien_registre = false) as Hm
    by (left; reflexivity).
  split; [exact He|]. split; [exact Hm|].
  destruct (missing_columns_ticket_only Demo.ancien_registre
              colonne_nom colonne_role He Hm) as [Heq Hmain].
  split; [exact Heq|].
  destruct (Hmain eq_refl eq_refl Demo.fichiers_anciens eq_refl)
    as (_ & pool & Hpool & Hcols & _); [reflexivity|reflexivity|].
  exists pool. split; [exact Hpool|exact Hcols].
Defined.

(** C6. With no ledger file, or a ledger that is empty, no name is
    ineligible and the eligible pool [main] computes is the table of
    candidates itself, for candidates that have the name column, and the
    ticket column when the ledger has it. *)
Theorem empty_ledger_pool_unchanged (fs : Files) :
  gagnants_combines fs = None
  ∨ (∃ g, gagnants_combines fs = Some g ∧ is_empty g = true) →
  has_column colonne_nom (candidates fs) = true →
  (∀ g, gagnants_combines fs = Some g →
        has_column colonne_id_ticket g = true →
        has_column colonne_id_ticket (candidates fs) = true) →
  (get_ineligible_participants (gagnants_combines fs)
     colonne_nom colonne_role).1.2 = []
  ∧ eligible_pool fs = Ok (candidates fs).
Proof.
  intros Hled Hn Ht.
  assert ((get_ineligible_participants (gagnants_combines fs)
             colonne_nom colonne_role).1.2 = []) as Hnames.
  { destruct Hled as [-> | (g & -> & He)]; [done|].
    unfold get_ineligible_participants. by rewrite He. }
  split; [done|]. unfold eligible_pool. rewrite Hnames, ledger_read_eq.
  unfold filter_eligible. rewrite Hn. simpl.
  rewrite select_all by (intros; first [done|apply isin_false, not_elem_of_nil]).
  destruct Hled as [-> | (g & Hsome & He)]; [done|]. rewrite Hsome.
  destruct (has_column colonne_id_ticket g) eqn:Hg; [|done].
  rewrite (Ht g Hsome Hg). simpl. f_equal. apply select_all. intros r _.
  apply isin_false. unfold column_values.
  unfold is_empty in He. apply orb_true_iff in He as [Hr|Hc].
  - apply bool_decide_eq_true in Hr. rewrite Hr. apply not_elem_of_nil.
  - apply bool_decide_eq_true in Hc. unfold has_column in Hg.
    apply bool_decide_eq_true in Hg. rewrite Hc in Hg.
    by apply elem_of_nil in Hg.
Qed.

Lemma empty_ledger_pool_unchanged_witness :
  gagnants_combines Demo.premier_tirage = None
  ∧ has_column colonne_nom (candidates Demo.premier_tirage) = true
  ∧ eligible_pool Demo.premier_tirage
    = Ok (candidates Demo.premier_tirage).
Proof.
  split; [reflexivity|]. split; [reflexivity|].
  apply (empty_ledger_pool_unchanged Demo.premier_tirage);
    [left; reflexivity|reflexivity|].
  intros g Hg. discriminate Hg.
Defined.

(** ** Sampling without replacement *)

Lemma length_sample_rows seed n pool :
  n ≤ length pool → length (sample_rows seed n pool) = n.
Proof.
  revert seed pool. induction n as [|n IH]; intros seed pool Hn; [done|].
  simpl. set (i := default 0 (head seed) `mod` length pool).
  assert (i < length pool) as Hi by (apply Nat.mod_upper_bound; lia).
  destruct (lookup_lt_is_Some_2 pool i Hi) as [r Hr]. rewrite Hr. simpl.
  rewrite IH; [done|]. rewrite length_delete by eauto. lia.
Qed.

Lemma sample_rows_submseteq seed n pool : sample_rows seed n pool ⊆+ pool.
Proof.
  revert seed pool. induction n as [|n IH]; intros seed pool; simpl.
  { apply submseteq_nil_l. }
  destruct (pool !! _) as [r|] eqn:Hr; [|apply submseteq_nil_l].
  transitivity (r :: delete (default 0 (head seed) `mod` length pool) pool).
  - apply submseteq_skip, IH.
  - apply Permutation_submseteq. symmetry. by apply delete_Permutation.
Qed.

(** ** A run that draws *)

Lemma main_drawn_inv fs typed seed now nouveaux :
  ending (main fs typed seed now) = Drawn nouveaux →
  ∃ n pool,
    typed = Entered n ∧ (0 < n)%Z ∧ (n ≤ Z.of_nat (len pool))%Z
    ∧ eligible_pool fs = Ok pool
    ∧ main fs typed seed now
      = draw_and_save fs (prompt_trace fs pool) pool (ledger_read fs)
                      (Entered n) seed now.
Proof.
  rewrite main_unfold.
  destruct (is_empty (candidates fs)); [done|].
  destruct (eligible_pool fs) as [pool|c]; [|done].
  destruct (is_empty pool); [done|].
  destruct typed as [|n]; [done|].
  intros Hend. exists n, pool.
  destruct (decide (n ≤ 0)%Z) as [Hn|Hn].
  { rewrite draw_and_save_refused in Hend by eauto. done. }
  destruct (decide (Z.of_nat (len pool) < n)%Z) as [Hlt|Hlt].
  { rewrite draw_and_save_not_enough in Hend by lia. done. }
  repeat split; [lia|lia].
Qed.

Lemma rows_df_final_gagnants df_g nouveaux :
  (∀ g, df_g = Some g → table_ok g) →
  rows (df_final_gagnants df_g nouveaux)
  = match df_g with Some g => rows g | None => [] end ++ rows nouveaux.
Proof.
  intros Hok. unfold df_final_gagnants. destruct df_g as [g|]; [|done].
  destruct (is_empty g) eqn:He; [|done]. simpl.
  unfold is_empty in He. apply orb_true_iff in He as [Hr|Hc].
  - apply bool_decide_eq_true in Hr. by rewrite Hr.
  - apply bool_decide_eq_true in Hc. by rewrite (Hok g eq_refl Hc).
Qed.

Lemma clock_reads_no_draw_effect t : no_draw_effect t → clock_reads t = 0.
Proof.
  unfold clock_reads. induction 1 as [|e t He _ IH]; [done|].
  rewrite filter_cons. destruct e; simpl in *; try done.
Qed.

Lemma clock_reads_app t1 t2 :
  clock_reads (t1 ++ t2) = clock_reads t1 + clock_reads t2.
Proof. unfold clock_reads. by rewrite filter_app, length_app. Qed.

(** C7. When a run ends in a draw, the ledger file it leaves holds the rows
    the ledger had before the run, in the same order, followed by the rows of
    the new winners, and this is the table the run wrote; the new winners are
    the requested number of rows, taken without replacement from the eligible
    pool and stamped; the two candidate files are untouched. A name can be in
    the ledger more than once after draws on separate runs: in the sample
    files Bob has one win before the run and two after it. *)
Theorem draw_appends_to_ledger fs typed seed now nouveaux :
  ending (main fs typed seed now) = Drawn nouveaux →
  (∀ g, gagnants_combines fs = Some g → table_ok g) →
  let run := main fs typed seed now in
  (∃ final n pool,
      typed = Entered n ∧ eligible_pool fs = Ok pool
      ∧ gagnants_combines (files run) = Some final
      ∧ rows final = ledger_rows fs ++ rows nouveaux
      ∧ ToExcel final ∈ trace run
      ∧ rows nouveaux
        = (insert heure_du_tirage (Text (strftime now)) : row → row)
            <$> sample_rows seed (Z.to_nat n) (rows pool)
      ∧ Z.of_nat (length (rows nouveaux)) = n
      ∧ sample_rows seed (Z.to_nat n) (rows pool) ⊆+ rows pool
      ∧ event_registration_visiteurs (files run)
        = event_registration_visiteurs fs
      ∧ event_registration_benevoles (files run)
        = event_registration_benevoles fs)
  ∧ wins colonne_nom Demo.gagnants (Text "Bob") = 1
  ∧ (λ final, wins colonne_nom final (Text "Bob"))
      <$> gagnants_combines
            (files (main Demo.fichiers (Entered 1) [] Demo.midi))
    = Some 2.
Proof.
  intros Hend Hok. cbv zeta. split; [|split; by vm_compute].
  destruct (main_drawn_inv _ _ _ _ _ Hend)
    as (n & pool & -> & Hpos & Hle & Hpool & Hmain).
  rewrite Hmain in Hend |- *.
  rewrite draw_and_save_drawn in Hend |- * by done. simpl in Hend |- *.
  injection Hend as <-.
  eexists _, n, pool. split; [done|]. split; [done|]. split; [done|].
  split.
  { rewrite rows_df_final_gagnants.
    - by rewrite ledger_read_eq.
    - intros g Hg. apply Hok. by rewrite <- ledger_read_eq. }
  split; [set_solver|]. split; [done|]. split.
  { simpl. rewrite length_fmap, length_sample_rows; unfold len in *; lia. }
  split; [apply sample_rows_submseteq|done].
Qed.

Lemma draw_appends_to_ledger_witness :
  (∃ nouveaux,
      ending (main Demo.fichiers (Entered 1) [] Demo.midi)
      = Drawn nouveaux)
  ∧ (∀ g, gagnants_combines Demo.fichiers = Some g → table_ok g)
  ∧ ∃ final nouveaux,
      gagnants_combines
        (files (main Demo.fichiers (Entered 1) [] Demo.midi))
      = Some final
      ∧ rows final = ledger_rows Demo.fichiers ++ rows nouveaux.
Proof.
  destruct (ending (main Demo.fichiers (Entered 1) [] Demo.midi))
    as [| | | | |nouveaux|] eqn:Hend; try (by vm_compute in Hend).
  assert (∀ g, gagnants_combines Demo.fichiers = Some g → table_ok g)
    as Hok by (by intros g [= <-]).
  split; [by exists nouveaux|]. split; [exact Hok|].
  destruct (draw_appends_to_ledger Demo.fichiers (Entered 1) []
              Demo.midi nouveaux Hend Hok)
    as [(final & _ & _ & _ & _ & Hfinal & Hrows & _) _].
  exists final, nouveaux. split; [exact Hfinal|exact Hrows].
Defined.

(** ** The draw timestamp *)

Lemma is_digit_digit n : is_digit (digit n) = true.
Proof.
  unfold is_digit, digit.
  pose proof (Nat.mod_upper_bound n 10).
  rewrite nat_ascii_embedding by lia.
  apply andb_true_iff. split; apply Nat.leb_le; lia.
Qed.

Lemma timestamp_shape_strftime now :
  1000 ≤ year now → timestamp_shape (strftime now) = true.
Proof.
  intros Hy. unfold strftime, year_digits, two_digits.
  rewrite !decide_False by lia. unfold timestamp_shape.
  cbv -[digit is_digit Nat.div Nat.modulo andb].
  by rewrite !is_digit_digit.
Qed.



(** ** Numbering the answers *)

Lemma cumcount_answer seen df : answer <$> cumcount seen df = df.
Proof.
  revert seen. induction df as [|r df IH]; intros seen; [done|].
  simpl. destruct (identity r); simpl; by rewrite IH.
Qed.

Lemma length_cumcount seen df : length (cumcount seen df) = length df.
Proof. by rewrite <- (cumcount_answer seen df) at 2; rewrite length_fmap. Qed.

(** The ordinal of a row is the number of rows of its group above it, counted
    from what [seen] holds for the group. *)
Lemma cumcount_lookup seen df i r :
  cumcount seen df !! i = Some r →
  match identity (answer r) with
  | Some k =>
    num_reponse r
    = Some (default 0 (seen !! k) + length (rows_of k (take i df)))
  | None => num_reponse r = None
  end.
Proof.
  revert seen i. induction df as [|r0 df IH]; intros seen i; [done|].
  simpl. destruct i as [|i].
  - destruct (identity r0) as [k0|] eqn:Hk0; simpl; intros [= <-]; simpl;
      rewrite Hk0; [|done]. unfold rows_of. simpl. f_equal. lia.
  - destruct (identity r0) as [k0|] eqn:Hk0; simpl; intros Hr.
    + apply IH in Hr. destruct (identity (answer r)) as [k|]; [|done].
      rewrite Hr. f_equal. unfold rows_of. rewrite filter_cons.
      destruct (decide (k0 = k)) as [->|Hne].
      * rewrite decide_True by done.
        rewrite lookup_insert_eq. simpl. lia.
      * rewrite decide_False by congruence.
        by rewrite lookup_insert_ne.
    + apply IH in Hr. destruct (identity (answer r)) as [k|]; [|done].
      rewrite Hr. f_equal. unfold rows_of. rewrite filter_cons.
      rewrite decide_False by congruence. done.
Qed.

(** ** The groups of the pivot *)

(** The value of the group [(k, n)] of a numbered table: the answer cell of
    the row of [k] that the numbering gave the ordinal [n]. *)
Lemma first_valid_cumcount seen df k n :
  Forall (λ r, is_Some (reponses_des_participants r)) df →
  first_valid (k, n) (omap pivot_entry (cumcount seen df))
  = if decide (n < default 0 (seen !! k)) then None
    else rows_of k df !! (n - default 0 (seen !! k))
         ≫= reponses_des_participants.
Proof.
  intros Hall. revert seen. unfold first_valid.
  induction Hall as [|r df [a Ha] _ IH]; intros seen.
  { simpl. by case_decide. }
  simpl. unfold rows_of. rewrite filter_cons.
  destruct (identity r) as [k0|] eqn:Hk0; simpl.
  - unfold pivot_entry at 1. simpl. rewrite Hk0. simpl.
    destruct (decide (k0 = k)) as [->|Hne].
    + rewrite (decide_True (P := Some k = Some k)) by done.
      destruct (decide ((k, default 0 (seen !! k)) = (k, n)))
        as [[= Heq]|Hneq].
      * rewrite Ha. simpl. rewrite decide_False by lia.
        rewrite Heq, Nat.sub_diag. simpl. by rewrite Ha.
      * etrans; [apply (IH (<[k:=S (default 0 (seen !! k))]> seen))|].
        rewrite lookup_insert_eq. simpl.
        assert (default 0 (seen !! k) ≠ n) by congruence.
        destruct (decide (n < default 0 (seen !! k))).
        { by rewrite decide_True by lia. }
        rewrite decide_False by lia.
        replace (n - default 0 (seen !! k))
          with (S (n - S (default 0 (seen !! k)))) by lia.
        done.
    + rewrite (decide_False (P := Some k0 = Some k)) by (by intros [= ?]).
      destruct (decide ((k0, default 0 (seen !! k0)) = (k, n)))
        as [[= ? ?]|_]; [done|].
      etrans; [apply (IH (<[k0:=S (default 0 (seen !! k0))]> seen))|].
      by rewrite lookup_insert_ne.
  - unfold pivot_entry at 1. simpl. rewrite Hk0. apply IH.
Qed.

Lemma first_valid_Some_elem g a (keyed : list (pivot_key * text)) :
  first_valid g keyed = Some a → g ∈ keyed.*1.
Proof.
  unfold first_valid. intros Hh. apply head_Some_elem_of in Hh.
  apply list_elem_of_omap in Hh as (e & He & Hsel).
  case_decide; [subst g|done]. apply list_elem_of_fmap. by exists e.
Qed.

Lemma agged_fst (keyed : list (pivot_key * text)) :
  (agged keyed).*1
  = filter (λ g, is_Some (first_valid g keyed)) (unique (keyed.*1)).
Proof.
  unfold agged. induction (unique (keyed.*1)) as [|g l IH]; [done|].
  simpl. rewrite filter_cons.
  destruct (first_valid g keyed) as [a|]; simpl; [f_equal|]; apply IH.
Qed.

Lemma elem_of_agged g a (keyed : list (pivot_key * text)) :
  (g, a) ∈ agged keyed ↔ first_valid g keyed = Some a.
Proof.
  unfold agged. rewrite list_elem_of_omap. split.
  - intros (g' & _ & Hg'). destruct (first_valid g' keyed) eqn:E; [|done].
    simpl in Hg'. by injection Hg' as -> ->.
  - intros Hf. exists g. split.
    + apply elem_of_unique. by eapply first_valid_Some_elem.
    + by rewrite Hf.
Qed.

Lemma NoDup_agged_fst (keyed : list (pivot_key * text)) :
  NoDup (agged keyed).*1.
Proof. rewrite agged_fst. apply NoDup_filter, NoDup_unique. Qed.

Lemma lookup_agged g (keyed : list (pivot_key * text)) :
  (list_to_map (agged keyed) : gmap pivot_key string) !! g
  = first_valid g keyed.
Proof.
  destruct (first_valid g keyed) as [a|] eqn:Hf.
  - apply elem_of_list_to_map_1; [apply NoDup_agged_fst|].
    by apply elem_of_agged.
  - apply not_elem_of_list_to_map_1. rewrite agged_fst.
    rewrite list_elem_of_filter, Hf. by intros [[? ?] _].
Qed.

(** ** Reading a line of the pivot *)

Lemma omap_cons {A B} (f : A → option B) (x : A) (l : list A) :
  omap f (x :: l)
  = match f x with Some y => y :: omap f l | None => omap f l end.
Proof. reflexivity. Qed.

Lemma omap_ext_Forall {A B} (f g : A → option B) (l : list A) :
  Forall (λ x, f x = g x) l → omap f l = omap g l.
Proof.
  induction 1 as [|x l Hx _ IH]; [done|]. by rewrite !omap_cons, Hx, IH.
Qed.

Lemma omap_all_None {A B} (f : A → option B) (l : list A) :
  Forall (λ x, f x = None) l → omap f l = [].
Proof.
  induction 1 as [|x l Hx _ IH]; [done|]. by rewrite omap_cons, Hx.
Qed.

Lemma omap_is_Some_lookup {A B} (f : A → option B) (l : list A) n :
  Forall (λ x, is_Some (f x)) l → omap f l !! n = l !! n ≫= f.
Proof.
  intros Hall. revert n. induction Hall as [|x l [y Hy] _ IH]; intros n.
  { done. }
  rewrite omap_cons, Hy. destruct n as [|n]; simpl; [done|]. apply IH.
Qed.

Lemma StronglySorted_le_lt (l : list nat) :
  StronglySorted (≤) l → NoDup l → StronglySorted (<) l.
Proof.
  induction 1 as [|x l _ IH Hle]; intros Hnd; constructor.
  - apply IH. by apply NoDup_cons in Hnd as [_ ?].
  - apply NoDup_cons in Hnd as [Hx _]. rewrite Forall_forall in Hle |- *.
    intros y Hy. specialize (Hle y Hy).
    assert (x ≠ y) by (by intros ->). lia.
Qed.

(** Reading a list at the positions a strictly increasing list of naturals
    gives, when these cover the list, yields the list. *)
Lemma omap_lookup_sorted {A} (l : list A) (ords : list nat) a :
  StronglySorted (<) ords →
  Forall (λ n, a ≤ n) ords →
  (∀ n, a ≤ n < a + length l → n ∈ ords) →
  omap (λ n, l !! (n - a)) ords = l.
Proof.
  intros Hs. revert l a. induction Hs as [|x ords Hs IH Hlt]; intros l a Hge Hcov.
  { destruct l as [|y l]; [done|].
    specialize (Hcov a). simpl in Hcov.
    by destruct (not_elem_of_nil a); apply Hcov; lia. }
  destruct l as [|y l].
  { apply omap_all_None, Forall_forall. by intros. }
  apply Forall_cons in Hge as [Hx Hge].
  assert (x = a) as ->.
  { destruct (proj1 (elem_of_cons _ _ _) (Hcov a ltac:(simpl; lia)))
      as [->|Ha]; [done|].
    rewrite Forall_forall in Hlt. specialize (Hlt a Ha). lia. }
  rewrite omap_cons, Nat.sub_diag. simpl. f_equal.
  etrans; [|apply (IH l (S a))].
  - apply omap_ext_Forall, Forall_forall. intros n Hn.
    rewrite Forall_forall in Hlt. specialize (Hlt n Hn).
    by replace (n - a) with (S (n - S a)) by lia.
  - eapply Forall_impl; [exact Hlt|]. simpl. lia.
  - intros n Hn.
    destruct (proj1 (elem_of_cons _ _ _) (Hcov n ltac:(simpl; lia)))
      as [->|?]; [lia|done].
Qed.

(** ** The pivot, line by line *)

Section pivot.
Variable df : list response_row.
Let keyed := omap pivot_entry df.

Lemma elem_of_index k :
  k ∈ index (pivot_table df) ↔ ∃ n a, first_valid (k, n) keyed = Some a.
Proof.
  unfold pivot_table. simpl. rewrite merge_sort_Permutation, elem_of_unique.
  rewrite list_elem_of_fmap. split.
  - intros ([[k' n] a] & -> & He). exists n, a. by apply elem_of_agged.
  - intros (n & a & Hf). exists ((k, n), a). split; [done|].
    by apply elem_of_agged.
Qed.

Lemma elem_of_ordinals n :
  n ∈ ordinals (pivot_table df) ↔ ∃ k a, first_valid (k, n) keyed = Some a.
Proof.
  unfold pivot_table. simpl. rewrite merge_sort_Permutation, elem_of_unique.
  rewrite list_elem_of_fmap. split.
  - intros ([[k n'] a] & -> & He). exists k, a. by apply elem_of_agged.
  - intros (k & a & Hf). exists ((k, n), a). split; [done|].
    by apply elem_of_agged.
Qed.

Lemma NoDup_index : NoDup (index (pivot_table df)).
Proof.
  unfold pivot_table. simpl. rewrite merge_sort_Permutation.
  apply NoDup_unique.
Qed.

Lemma StronglySorted_ordinals : StronglySorted (<) (ordinals (pivot_table df)).
Proof.
  unfold pivot_table. simpl. apply StronglySorted_le_lt.
  - apply (StronglySorted_merge_sort _).
  - rewrite merge_sort_Permutation. apply NoDup_unique.
Qed.

Lemma table_pivot_table :
  table (pivot_table df)
  = (λ k, (λ n, first_valid (k, n) keyed) <$> ordinals (pivot_table df))
      <$> index (pivot_table df).
Proof.
  unfold pivot_table. simpl. apply list_fmap_ext. intros _ k _.
  apply list_fmap_ext. intros _ n _. apply lookup_agged.
Qed.

Lemma participants_pivot_responses :
  participants (pivot_responses df)
  = (λ k, mkParticipant k
            ((λ n, first_valid (k, n) keyed) <$> ordinals (pivot_table df)))
      <$> index (pivot_table df).
Proof.
  unfold pivot_responses. cbn [participants]. rewrite table_pivot_table.
  induction (index (pivot_table df)) as [|k l IH]; [done|].
  rewrite !fmap_cons. cbn [zip_with]. f_equal. exact IH.
Qed.

End pivot.

(** ** The pivot of a numbered table *)

Lemma Forall_kept (df : list answer_row) :
  Forall (λ r, is_Some (reponses_des_participants r))
         (filter (λ r, is_Some (reponses_des_participants r)) df).
Proof. apply Forall_forall. intros r Hr. by apply list_elem_of_filter in Hr as [? _]. Qed.

Lemma answers_of_kept k (df : list answer_row) :
  answers_of k (filter (λ r, is_Some (reponses_des_participants r)) df)
  = answers_of k df.
Proof.
  unfold answers_of, rows_of. induction df as [|r df IH]; [done|].
  rewrite (filter_cons (λ r, is_Some (reponses_des_participants r))).
  rewrite (filter_cons (λ r, identity r = Some k) r df).
  destruct (decide (is_Some (reponses_des_participants r))) as [Hs|Hn].
  - rewrite filter_cons. destruct (decide (identity r = Some k)); [|done].
    by rewrite !omap_cons, IH.
  - destruct (decide (identity r = Some k)); [|done].
    rewrite omap_cons. destruct (reponses_des_participants r); [|done].
    by destruct Hn.
Qed.

(** The cell of participant [k] in column [n] is the answer number [n] of
    [k]. *)
Lemma first_valid_group_data (file : list answer_row) k n :
  first_valid (k, n) (omap pivot_entry (group_data_by_nam_email file))
  = answers_of k file !! n.
Proof.
  unfold group_data_by_nam_email.
  rewrite first_valid_cumcount by apply Forall_kept.
  rewrite lookup_empty. simpl. rewrite Nat.sub_0_r.
  rewrite <- answers_of_kept. unfold answers_of.
  rewrite omap_is_Some_lookup; [done|].
  apply Forall_forall. intros r Hr. unfold rows_of in Hr.
  apply list_elem_of_filter in Hr as [_ Hr].
  by apply list_elem_of_filter in Hr as [? _].
Qed.

Lemma omap_id_fmap {A B} (f : A → option B) (l : list A) :
  omap id (f <$> l) = omap f l.
Proof.
  induction l as [|x l IH]; [done|].
  rewrite fmap_cons, !omap_cons. simpl. by rewrite IH.
Qed.

(** The cells of the line of [k] that are not NaN are the answers of [k]. *)
Lemma filled_cells_line (file : list answer_row) k :
  let df_responses := group_data_by_nam_email file in
  omap id ((λ n, first_valid (k, n) (omap pivot_entry df_responses))
             <$> ordinals (pivot_table df_responses))
  = answers_of k file.
Proof.
  cbv zeta. rewrite omap_id_fmap.
  etrans;
    [|apply (omap_lookup_sorted (answers_of k file)
               (ordinals (pivot_table (group_data_by_nam_email file))) 0)].
  - apply omap_ext_Forall, Forall_forall. intros n _.
    by rewrite first_valid_group_data, Nat.sub_0_r.
  - apply StronglySorted_ordinals.
  - apply Forall_forall. intros; lia.
  - intros n [_ Hn]. simpl in Hn. apply elem_of_ordinals.
    destruct (lookup_lt_is_Some_2 _ _ Hn) as [a Ha].
    exists k, a. by rewrite first_valid_group_data.
Qed.

Lemma elem_of_index_group_data (file : list answer_row) k :
  k ∈ index (pivot_table (group_data_by_nam_email file))
  ↔ ∃ r, r ∈ group_data_by_nam_email file ∧ identity (answer r) = Some k.
Proof.
  rewrite elem_of_index. setoid_rewrite first_valid_group_data.
  assert (answer <$> group_data_by_nam_email file
          = filter (λ r, is_Some (reponses_des_participants r)) file) as Hans
    by apply cumcount_answer.
  split.
  - intros (n & a & Ha). apply list_elem_of_lookup_2 in Ha.
    unfold answers_of in Ha. apply list_elem_of_omap in Ha as (r & Hr & Hra).
    apply list_elem_of_filter in Hr as [Hk Hr].
    assert (r ∈ answer <$> group_data_by_nam_email file) as Hin.
    { rewrite Hans. apply list_elem_of_filter. split; [by eexists|done]. }
    apply list_elem_of_fmap in Hin as (r' & -> & Hr'). by exists r'.
  - intros (r & Hr & Hk).
    assert (answer r ∈ answer <$> group_data_by_nam_email file) as Hin
      by (by apply list_elem_of_fmap_2).
    rewrite Hans in Hin. apply list_elem_of_filter in Hin as [[a Ha] Hin].
    assert (a ∈ answers_of k file) as Hel.
    { unfold answers_of. apply list_elem_of_omap. exists (answer r).
      split; [|done]. by apply list_elem_of_filter. }
    apply list_elem_of_lookup_1 in Hel as [n Hn]. by exists n, a.
Qed.

(** ** Grouping keeps every answer *)

Lemma table_answers_rows_of k (l : list answer_row) :
  table_answers (rows_of k l) = (λ a, (k, a)) <$> answers_of k l.
Proof.
  unfold table_answers, answers_of, rows_of.
  induction l as [|r l IH]; [done|]. rewrite filter_cons.
  destruct (decide (identity r = Some k)) as [Hk|Hk]; [|done].
  rewrite !omap_cons, Hk. simpl.
  destruct (reponses_des_participants r); simpl; by rewrite IH.
Qed.

Lemma bind_ext_Forall {A B} (f g : A → list B) (l : list A) :
  Forall (λ x, f x = g x) l → l ≫= f = l ≫= g.
Proof.
  induction 1 as [|x l Hx _ IH]; [done|]. by rewrite !bind_cons, Hx, IH.
Qed.

Lemma table_answers_grouped (ks : list (string * string))
    (l : list answer_row) :
  NoDup ks →
  (∀ r k, r ∈ l → identity r = Some k → k ∈ ks) →
  table_answers l ≡ₚ ks ≫= (λ k, (λ a, (k, a)) <$> answers_of k l).
Proof.
  intros Hnd. revert l. induction Hnd as [|k ks Hk Hnd IH]; intros l Hcov.
  { unfold table_answers. rewrite omap_all_None; [done|].
    apply Forall_forall. intros r Hr.
    destruct (identity r) as [k|] eqn:E; [|done].
    by destruct (not_elem_of_nil k); eapply Hcov. }
  rewrite bind_cons.
  transitivity (table_answers (rows_of k l)
                ++ table_answers (filter (λ r, ¬ identity r = Some k) l)).
  { unfold table_answers, rows_of. rewrite <- omap_app.
    apply omap_Permutation. symmetry. apply filter_app_complement. }
  rewrite table_answers_rows_of. apply Permutation_app_head.
  rewrite IH.
  - rewrite (bind_ext_Forall _ (λ k0, (λ a, (k0, a)) <$> answers_of k0 l));
      [done|].
    apply Forall_forall. intros k' Hk'. f_equal.
    unfold answers_of, rows_of. f_equal.
    rewrite list_filter_filter. apply list_filter_iff. intros r.
    split; [tauto|]. intros Hr. split; [done|]. rewrite Hr.
    intros [= <-]. done.
  - intros r k' Hr Hk'. apply list_elem_of_filter in Hr as [Hne Hr].
    destruct (proj1 (elem_of_cons _ _ _) (Hcov r k' Hr Hk')) as [->|?];
      [done|done].
Qed.

(** The number of a row of [df_responses]. *)
Lemma group_data_numbering (file : list answer_row) i r :
  group_data_by_nam_email file !! i = Some r →
  match identity (answer r) with
  | Some k =>
    num_reponse r
    = Some (length (rows_of k
                      (take i (answer <$> group_data_by_nam_email file))))
  | None => num_reponse r = None
  end.
Proof.
  intros Hr. unfold group_data_by_nam_email in *. rewrite cumcount_answer.
  apply cumcount_lookup in Hr. destruct (identity (answer r)); [|done].
  by rewrite Hr, lookup_empty.
Qed.

(** A participant is on a line of the pivot exactly when the input has an
    answer of theirs. *)
Lemma participant_on_line (file : list answer_row) k :
  k ∈ participant
        <$> participants (pivot_responses (group_data_by_nam_email file))
  ↔ answers_of k file ≠ [].
Proof.
  assert (participant <$> participants
            (pivot_responses (group_data_by_nam_email file))
          = index (pivot_table (group_data_by_nam_email file))) as ->.
  { rewrite participants_pivot_responses, <- list_fmap_compose.
    apply list_fmap_id. }
  rewrite elem_of_index. setoid_rewrite first_valid_group_data. split.
  - intros (n & a & Ha) Hnil. by rewrite Hnil in Ha.
  - intros Hne. destruct (answers_of k file) as [|a l] eqn:E; [done|].
    by exists 0, a.
Qed.

(** C3. [group_data_by_nam_email] keeps the rows that have an answer, in
    the order of the input, and numbers each row that has a participant with
    the number of kept rows of the same participant above it; a row without
    participant gets no number. The columns of the pivot are in strictly
    increasing order of these numbers. Every participant who has an answer
    in the input has a line in [pivot_responses], and only they have one; on
    every line the cells that are not NaN, read in column order, are the
    answers of the participant in the order of the input. *)
Theorem answers_numbered_and_pivoted_in_order (file : list answer_row) :
  let df_responses := group_data_by_nam_email file in
  answer <$> df_responses
  = filter (λ r, is_Some (reponses_des_participants r)) file
  ∧ (∀ i r, df_responses !! i = Some r →
       match identity (answer r) with
       | Some k =>
         num_reponse r
         = Some (length (rows_of k (take i (answer <$> df_responses))))
       | None => num_reponse r = None
       end)
  ∧ StronglySorted (<) (ordinals (pivot_table df_responses))
  ∧ (∀ p, p ∈ participants (pivot_responses df_responses) →
       filled_cells p = answers_of (participant p) file)
  ∧ (∀ k, answers_of k file ≠ [] →
       ∃ p, p ∈ participants (pivot_responses df_responses)
            ∧ participant p = k
            ∧ filled_cells p = answers_of k file)
  ∧ (∀ p, p ∈ participants (pivot_responses df_responses) →
       answers_of (participant p) file ≠ []).
Proof.
  cbv zeta.
  assert (answer <$> group_data_by_nam_email file
          = filter (λ r, is_Some (reponses_des_participants r)) file) as Hans
    by apply cumcount_answer.
  assert (∀ p, p ∈ participants
                     (pivot_responses (group_data_by_nam_email file)) →
               filled_cells p = answers_of (participant p) file) as Hline.
  { intros p Hp. rewrite participants_pivot_responses in Hp.
    apply list_elem_of_fmap in Hp as (k & -> & _).
    unfold filled_cells. simpl. apply filled_cells_line. }
  split; [done|]. split; [apply group_data_numbering|].
  split; [apply StronglySorted_ordinals|].
  split; [exact Hline|]. split.
  - intros k Hk. apply participant_on_line in Hk.
    apply list_elem_of_fmap in Hk as (p & -> & Hp).
    exists p. split; [done|]. split; [done|]. by apply Hline.
  - intros p Hp. apply participant_on_line.
    by apply list_elem_of_fmap_2.
Qed.

Lemma answers_numbered_and_pivoted_in_order_witness :
  answers_of ("Bob", "e2") Demo.reponses_completes = ["Maybe"]
  ∧ answers_of ("Alice", "e1") Demo.reponses_completes = ["Yes"; "No"]
  ∧ (∃ p, p ∈ participants
                (pivot_responses
                   (group_data_by_nam_email Demo.reponses_completes))
          ∧ participant p = ("Alice", "e1")
          ∧ filled_cells p = ["Yes"; "No"])
  ∧ (∃ p, p ∈ participants
                (pivot_responses
                   (group_data_by_nam_email Demo.reponses_completes))
          ∧ participant p = ("Bob", "e2")
          ∧ filled_cells p = ["Maybe"]).
Proof.
  assert (answers_of ("Bob", "e2") Demo.reponses_completes = ["Maybe"])
    as Hbob by (by vm_compute).
  assert (answers_of ("Alice", "e1") Demo.reponses_completes = ["Yes"; "No"])
    as Halice by (by vm_compute).
  split; [exact Hbob|]. split; [exact Halice|].
  destruct (answers_numbered_and_pivoted_in_order Demo.reponses_completes)
    as (_ & _ & _ & _ & Hpresent & _).
  split.
  - destruct (Hpresent ("Alice", "e1")) as (p & Hp & Hk & Hcells).
    { by rewrite Halice. }
    exists p. by rewrite Hcells, Halice.
  - destruct (Hpresent ("Bob", "e2")) as (p & Hp & Hk & Hcells).
    { by rewrite Hbob. }
    exists p. by rewrite Hcells, Hbob.
Defined.

(** The answers on the lines of the pivot are the answers of the rows that
    belong to a group, up to order. *)
Lemma pivot_answers_grouped (file : list answer_row) :
  pivot_answers (pivot_responses (group_data_by_nam_email file))
  ≡ₚ table_answers (answer <$> group_data_by_nam_email file).
Proof.
  unfold pivot_answers. rewrite participants_pivot_responses.
  rewrite list_fmap_bind.
  assert (answer <$> group_data_by_nam_email file
          = filter (λ r, is_Some (reponses_des_participants r)) file) as Hans
    by apply cumcount_answer.
  rewrite (table_answers_grouped
             (index (pivot_table (group_data_by_nam_email file)))).
  - apply reflexive_eq, bind_ext_Forall, Forall_forall. intros k _. simpl.
    unfold filled_cells. simpl. rewrite filled_cells_line.
    by rewrite Hans, answers_of_kept.
  - apply NoDup_index.
  - intros r k Hr Hk. apply elem_of_index_group_data.
    apply list_elem_of_fmap in Hr as (r' & -> & Hr'). by exists r'.
Qed.

#[local] Instance as_pair_inj : Inj (=) (=) as_pair.
Proof. intros [n e] [n' e'] [= -> ->]. done. Qed.

Lemma identity_pair_of r k :
  identity r = Some k ↔ pair_of r = as_pair k.
Proof.
  unfold identity, pair_of, as_pair. destruct k as [n e]. simpl.
  destruct (nom_du_participant r), (email r); naive_solver.
Qed.

Lemma complete_as_pair p : complete p ↔ ∃ k, p = as_pair k.
Proof.
  unfold complete, as_pair. destruct p as [n e]. simpl.
  rewrite !is_Some_alt. split.
  - destruct n as [n|], e as [e|]; try tauto. intros _. by exists (n, e).
  - intros [[n' e'] [= -> ->]]. done.
Qed.

Lemma identity_None_complete r :
  identity r = None ↔ ¬ complete (pair_of r).
Proof.
  unfold identity, pair_of, complete. simpl. rewrite !is_Some_alt.
  destruct (nom_du_participant r), (email r); split; try done; tauto.
Qed.

(** Among all the answers of a table, those of the rows in a group are the
    ones whose pair has a name and an e-mail. *)
Lemma table_answers_complete (l : list answer_row) :
  (λ e, (as_pair e.1, e.2)) <$> table_answers l
  = filter (λ e, complete e.1) (input_answers l).
Proof.
  unfold table_answers, input_answers.
  induction l as [|r l IH]; [done|]. rewrite !omap_cons.
  destruct (reponses_des_participants r) as [a|] eqn:Ha.
  - change ((λ a0 : string, (pair_of r, a0)) <$> Some a)
      with (Some (pair_of r, a)).
    destruct (identity r) as [k|] eqn:Hk;
      cbn [mbind option_bind mret option_ret].
    + rewrite fmap_cons, IH, filter_cons_True.
      * cbn [fst snd]. f_equal. f_equal.
        symmetry. by apply identity_pair_of.
      * cbn [fst]. apply complete_as_pair. exists k.
        by apply identity_pair_of.
    + rewrite filter_cons_False; [exact IH|].
      cbn [fst]. by apply identity_None_complete.
  - change ((λ a0 : string, (pair_of r, a0)) <$> None)
      with (@None (text * text * string)).
    destruct (identity r); cbn [mbind option_bind]; exact IH.
Qed.

(** Every row with an answer is either in a group or has a blank name or
    e-mail. *)
Lemma length_table_answers (l : list answer_row) :
  Forall (λ r, is_Some (reponses_des_participants r)) l →
  length (table_answers l)
  + length (filter (λ r, ¬ complete (pair_of r)) l)
  = length l.
Proof.
  unfold table_answers. induction 1 as [|r l [a Ha] _ IH]; [done|].
  rewrite omap_cons, Ha. destruct (identity r) as [k|] eqn:Hk;
    cbn [mbind option_bind mret option_ret].
  - rewrite filter_cons_False.
    + cbn [length]. by rewrite <- IH.
    + intros Hn. apply identity_None_complete in Hn. congruence.
  - rewrite filter_cons_True by (by apply identity_None_complete).
    cbn [length]. rewrite Nat.add_succ_r. by rewrite IH.
Qed.

(** C4. For the numbered rows [group_data_by_nam_email] hands to
    [pivot_responses], when there is at least one: the lines of the pivot
    carry pairwise distinct (name, e-mail) pairs; a pair is on a line exactly
    when it has a name and an e-mail and is the pair of some input row; the
    answers on the lines, each with its pair, are those answers of the input
    rows whose pair has a name and an e-mail, each with its pair, up to
    order: none of these is added, repeated or lost. A row whose name or
    e-mail is blank is in no group: its pair has no line and its answer is
    in no cell, so the answers of the pivot and the rows with a blank name or
    e-mail together count the rows of the input. *)
Theorem pivot_one_line_per_participant (file : list answer_row) :
  let df_responses := group_data_by_nam_email file in
  let df_pivot := pivot_responses df_responses in
  df_responses ≠ [] →
  NoDup (output_pairs df_pivot)
  ∧ (∀ p, p ∈ output_pairs df_pivot
          ↔ complete p ∧ p ∈ pair_of ∘ answer <$> df_responses)
  ∧ output_answers df_pivot
    ≡ₚ filter (λ e, complete e.1) (input_answers (answer <$> df_responses))
  ∧ length (output_answers df_pivot)
    + length (filter (λ r, ¬ complete (pair_of r)) (answer <$> df_responses))
    = length df_responses.
Proof.
  cbv zeta. intros _.
  assert (participant <$> participants
            (pivot_responses (group_data_by_nam_email file))
          = index (pivot_table (group_data_by_nam_email file))) as Hidx.
  { rewrite participants_pivot_responses, <- list_fmap_compose.
    apply list_fmap_id. }
  assert (answer <$> group_data_by_nam_email file
          = filter (λ r, is_Some (reponses_des_participants r)) file) as Hans
    by apply cumcount_answer.
  unfold output_pairs, output_answers.
  rewrite list_fmap_compose, Hidx.
  split; [apply (NoDup_fmap_2 _), NoDup_index|].
  split; [|split].
  - intros p. rewrite list_elem_of_fmap.
    setoid_rewrite elem_of_index_group_data.
    rewrite complete_as_pair, list_elem_of_fmap. split.
    + intros (k & -> & r & Hr & Hk). split; [by exists k|].
      exists r. split; [|done]. simpl. symmetry. by apply identity_pair_of.
    + intros [[k ->] (r & Hp & Hr)]. exists k. split; [done|].
      exists r. split; [done|]. by apply identity_pair_of.
  - rewrite <- table_answers_complete.
    apply fmap_Permutation, pivot_answers_grouped.
  - rewrite length_fmap, (Permutation_length (pivot_answers_grouped file)).
    rewrite <- (length_fmap answer (group_data_by_nam_email file)).
    apply length_table_answers. rewrite Hans.
    apply Forall_forall. intros r Hr.
    by apply list_elem_of_filter in Hr as [? _].
Qed.

Lemma pivot_one_line_per_participant_witness :
  group_data_by_nam_email Demo.reponses_completes ≠ []
  ∧ output_pairs
      (pivot_responses (group_data_by_nam_email Demo.reponses_completes))
    = [(Some "Alice", Some "e1"); (Some "Bob", Some "e2")]
  ∧ NoDup (output_pairs
             (pivot_responses
                (group_data_by_nam_email Demo.reponses_completes)))
  ∧ length (output_answers
              (pivot_responses
                 (group_data_by_nam_email Demo.reponses_completes)))
    = 3.
Proof.
  assert (group_data_by_nam_email Demo.reponses_completes ≠ []) as Hne
    by (by vm_compute).
  split; [exact Hne|]. split; [by vm_compute|].
  destruct (pivot_one_line_per_participant Demo.reponses_completes Hne)
    as (Hnd & _ & _ & Hlen).
  split; [exact Hnd|].
  change (filter (λ r, ¬ complete (pair_of r))
            (answer <$> group_data_by_nam_email Demo.reponses_completes))
    with (@nil answer_row) in Hlen.
  rewrite Nat.add_0_r in Hlen. rewrite Hlen. by vm_compute.
Defined.

(** A participant registered without e-mail, on the first row: they have an
    answer, the forward fill has nothing above to give them, and the pivot
    holds neither their pair nor their answer, against the specification's
    invariant read on every (name, e-mail) pair of the input. *)
Lemma blank_email_pair_dropped :
  let df_responses :=
    group_data_by_nam_email (load_and_fill_na_data Demo.sans_email) in
  let df_pivot := pivot_responses df_responses in
  df_responses ≠ []
  ∧ pair_of ∘ answer <$> df_responses
    = [(Some "Alice", None); (Some "Bob", Some "bob@rlq.test")]
  ∧ output_pairs df_pivot = [(Some "Bob", Some "bob@rlq.test")]
  ∧ input_answers (answer <$> df_responses)
    = [((Some "Alice", None), "Yes");
       ((Some "Bob", Some "bob@rlq.test"), "Maybe")]
  ∧ output_answers df_pivot
    = [((Some "Bob", Some "bob@rlq.test"), "Maybe")]
  ∧ ¬ (∀ p, p ∈ output_pairs df_pivot
            ↔ p ∈ pair_of ∘ answer <$> df_responses)
  ∧ ¬ (output_answers df_pivot
       ≡ₚ input_answers (answer <$> df_responses)).
Proof.
  cbv zeta.
  assert (pair_of ∘ answer
            <$> group_data_by_nam_email
                  (load_and_fill_na_data Demo.sans_email)
          = [(Some "Alice", None); (Some "Bob", Some "bob@rlq.test")])
    as Hin by (by vm_compute).
  assert (output_pairs
            (pivot_responses
               (group_data_by_nam_email
                  (load_and_fill_na_data Demo.sans_email)))
          = [(Some "Bob", Some "bob@rlq.test")]) as Hout
    by (by vm_compute).
  assert (input_answers
            (answer <$> group_data_by_nam_email
                          (load_and_fill_na_data Demo.sans_email))
          = [((Some "Alice", None), "Yes");
             ((Some "Bob", Some "bob@rlq.test"), "Maybe")]) as Hina
    by (by vm_compute).
  assert (output_answers
            (pivot_responses
               (group_data_by_nam_email
                  (load_and_fill_na_data Demo.sans_email)))
          = [((Some "Bob", Some "bob@rlq.test"), "Maybe")]) as Houta
    by (by vm_compute).
  split; [by vm_compute|]. split; [exact Hin|]. split; [exact Hout|].
  split; [exact Hina|]. split; [exact Houta|]. split.
  - rewrite Hin, Hout. intros Hall.
    assert ((Some "Alice", None)
            ∈ [(Some "Bob", Some "bob@rlq.test")]) as Habs
      by (apply Hall; left).
    apply list_elem_of_singleton in Habs. discriminate Habs.
  - rewrite Hina, Houta. intros Hperm.
    apply Permutation_length in Hperm. discriminate Hperm.
Qed.

(** ** The forward fill *)

Lemma length_ffill above df : length (ffill above df) = length df.
Proof.
  revert above. induction df as [|r df IH]; intros above; [done|].
  simpl. by rewrite IH.
Qed.

(** Below a row, as long as the answer cells are blank, the filled rows
    repeat the answer of that row. *)
Lemma ffill_blank_run above df i :
  i < length df →
  (∀ m rm, m ≤ i → df !! m = Some rm → reponses_des_participants rm = None) →
  ∃ r', ffill above df !! i = Some r'
        ∧ reponses_des_participants r' = reponses_des_participants above.
Proof.
  revert above i. induction df as [|r df IH]; intros above i Hi Hblank.
  { simpl in Hi. lia. }
  simpl. pose proof (Hblank 0 r ltac:(lia) eq_refl) as Hr.
  destruct i as [|i]; simpl.
  - eexists. split; [done|]. simpl. by rewrite Hr.
  - destruct (IH (mkAnswer
                    (fill (nom_du_participant above) (nom_du_participant r))
                    (fill (email above) (email r))
                    (fill (reponses_des_participants above)
                          (reponses_des_participants r))) i)
      as (r' & Hr' & Hans).
    + simpl in Hi. lia.
    + intros m rm Hm Hrm. apply (Hblank (S m)); [lia|done].
    + exists r'. split; [done|]. rewrite Hans. simpl. by rewrite Hr.
Qed.

(** A blank answer cell receives the answer of the nearest row above it
    that has one. *)
Lemma ffill_nearest above df i j rj a :
  j < i → i < length df →
  df !! j = Some rj → reponses_des_participants rj = Some a →
  (∀ m rm, j < m ≤ i → df !! m = Some rm →
           reponses_des_participants rm = None) →
  ∃ r', ffill above df !! i = Some r'
        ∧ reponses_des_participants r' = Some a.
Proof.
  revert above i j. induction df as [|r df IH]; intros above i j Hji Hi Hj Ha Hb.
  { simpl in Hi. lia. }
  destruct i as [|i]; [lia|]. simpl in Hi |- *.
  destruct j as [|j].
  - simpl in Hj. injection Hj as ->.
    destruct (ffill_blank_run
                (mkAnswer
                   (fill (nom_du_participant above) (nom_du_participant rj))
                   (fill (email above) (email rj))
                   (fill (reponses_des_participants above)
                         (reponses_des_participants rj))) df i)
      as (r' & Hr' & Hans).
    + lia.
    + intros m rm Hm Hrm. apply (Hb (S m)); [lia|done].
    + exists r'. split; [done|]. rewrite Hans. simpl. by rewrite Ha.
  - apply (IH _ i j); [lia|lia|done|done|].
    intros m rm Hm Hrm. apply (Hb (S m)); [lia|done].
Qed.

(** Once an answer has been met, every filled row has one. *)
Lemma ffill_all_answered above df :
  is_Some (reponses_des_participants above) →
  Forall (λ r, is_Some (reponses_des_participants r)) (ffill above df).
Proof.
  revert above. induction df as [|r df IH]; intros above Ha; [constructor|].
  simpl. assert (is_Some (fill (reponses_des_participants above)
                               (reponses_des_participants r))) as Hs.
  { unfold fill. by destruct (reponses_des_participants r). }
  constructor; [done|]. by apply IH.
Qed.

Lemma filter_Forall_id {A} (P : A → Prop) `{∀ x, Decision (P x)}
    (l : list A) :
  Forall P l → filter P l = l.
Proof.
  induction 1 as [|x l Hx _ IH]; [done|].
  by rewrite filter_cons, decide_True, IH.
Qed.

(** Only the rows above the first answer of the file are dropped. *)
Lemma kept_ffill above df :
  reponses_des_participants above = None →
  filter (λ r, is_Some (reponses_des_participants r)) (ffill above df)
  = drop (leading_blanks df) (ffill above df).
Proof.
  revert above. induction df as [|r df IH]; intros above Ha; [done|].
  simpl. rewrite filter_cons. rewrite Ha. simpl.
  destruct (reponses_des_participants r) as [a|] eqn:Hr; simpl.
  - f_equal. apply filter_Forall_id, ffill_all_answered. by eexists.
  - by apply IH.
Qed.

Lemma leading_blanks_lookup df m rm :
  m < leading_blanks df → df !! m = Some rm →
  reponses_des_participants rm = None.
Proof.
  revert m. induction df as [|r df IH]; intros m; simpl; [lia|].
  destruct (reponses_des_participants r) eqn:Hr; [lia|].
  destruct m as [|m]; simpl.
  - by intros _ [= <-].
  - intros Hm. apply IH. lia.
Qed.

Lemma leading_blanks_le df : leading_blanks df ≤ length df.
Proof.
  induction df as [|r df IH]; simpl; [lia|].
  destruct (reponses_des_participants r); lia.
Qed.

(** C9. In [pivot_table_and_save_to_excel] the table is forward filled in
    every column before the answers are numbered. A row whose answer cell is
    blank, below a row that has an answer, receives the answer of the nearest
    such row above it; the rows above the first answer of the file stay
    blank. The numbering then drops these leading rows only: every other row,
    blank in the file or not, is a row of [df_responses] and is numbered among
    the rows of its participant. In the sample file Bob gave no answer and
    his line of the saved table holds Alice's last answer. *)
Theorem forward_fill_counts_blank_answers (file : list answer_row) :
  let df_filled := load_and_fill_na_data file in
  let df_responses := group_data_by_nam_email df_filled in
  (∀ i j rj a,
     j < i → i < length file →
     file !! j = Some rj → reponses_des_participants rj = Some a →
     (∀ m rm, j < m ≤ i → file !! m = Some rm →
              reponses_des_participants rm = None) →
     ∃ r', df_filled !! i = Some r'
           ∧ reponses_des_participants r' = Some a)
  ∧ (∀ i ri, i < leading_blanks file → df_filled !! i = Some ri →
             reponses_des_participants ri = None)
  ∧ answer <$> df_responses = drop (leading_blanks file) df_filled
  ∧ (∀ i r, df_responses !! i = Some r →
       df_filled !! (leading_blanks file + i) = Some (answer r)
       ∧ match identity (answer r) with
         | Some k =>
           num_reponse r
           = Some (length (rows_of k (take i (drop (leading_blanks file)
                                                   df_filled))))
         | None => num_reponse r = None
         end)
  ∧ participants (pivot_table_and_save_to_excel Demo.inscriptions)
    = [mkParticipant ("Alice", "alice@rlq.test") [Some "Yes"; Some "No"];
       mkParticipant ("Bob", "bob@rlq.test") [Some "No"; None]].
Proof.
  cbv zeta. unfold load_and_fill_na_data.
  assert (answer <$> group_data_by_nam_email
                       (ffill (mkAnswer None None None) file)
          = drop (leading_blanks file) (ffill (mkAnswer None None None) file))
    as Hans.
  { unfold group_data_by_nam_email. rewrite cumcount_answer.
    by apply kept_ffill. }
  split.
  { intros i j rj a Hji Hi Hj Ha Hb. by eapply ffill_nearest. }
  split.
  { intros i ri Hi Hri.
    destruct (ffill_blank_run (mkAnswer None None None) file i)
      as (r' & Hr' & Hblank).
    - pose proof (leading_blanks_le file). lia.
    - intros m rm Hm. apply leading_blanks_lookup. lia.
    - rewrite Hri in Hr'. injection Hr' as <-. by rewrite Hblank. }
  split; [done|]. split; [|by vm_compute].
  intros i r Hr. split.
  - rewrite <- lookup_drop, <- Hans, list_lookup_fmap, Hr. done.
  - rewrite <- Hans. by apply group_data_numbering.
Qed.

(** ** The examples of the specification *)

Example pivot_alice_bob :
  pivot_responses (group_data_by_nam_email Demo.reponses_completes)
  = mkPivoted [Named "reponse_1"; Named "reponse_2"]
      [mkParticipant ("Alice", "e1") [Some "Yes"; Some "No"];
       mkParticipant ("Bob", "e2") [Some "Maybe"; None]].
Proof. by vm_compute. Qed.

Example draw_after_first_winner :
  ineligible_names Demo.gagnants colonne_nom colonne_role
  = [Some (Text "Alice"); Some (Text "Chloe")]
  ∧ (rows <$> match eligible_pool Demo.fichiers with
              | Ok pool => Some pool
              | KeyError _ => None
              end)
    = Some [Demo.participant "Bob" "Benevole" "T4"].
Proof. split; by vm_compute. Qed.

(** * Further properties of the draw script *)

(** ** The ticket rule *)

Lemma eligible_pool_elem fs pool (c : row) :
  eligible_pool fs = Ok pool →
  (c ∈ rows pool
   ↔ c ∈ rows (candidates fs)
     ∧ c !! colonne_nom
         ∉ (get_ineligible_participants (gagnants_combines fs)
              colonne_nom colonne_role).1.2
     ∧ ticket_free (gagnants_combines fs) c).
Proof.
  unfold eligible_pool. rewrite ledger_read_eq.
  apply elem_of_filter_eligible.
Qed.

(** X1. Whenever a run computes an eligible pool against a ledger that has
    the ticket column, no row of the pool has the ticket cell of a ledger
    row; a blank ticket cell counts as a ticket: one ledger row without
    ticket removes every candidate without ticket. *)
Theorem ledger_tickets_never_eligible fs pool g (c r : row) :
  eligible_pool fs = Ok pool →
  gagnants_combines fs = Some g →
  has_column colonne_id_ticket g = true →
  c ∈ rows pool → r ∈ rows g →
  c !! colonne_id_ticket ≠ r !! colonne_id_ticket.
Proof.
  intros Hpool Hg Hcol Hc Hr Heq.
  apply (eligible_pool_elem _ _ c Hpool) in Hc as (_ & _ & Hfree).
  apply (Hfree g Hg Hcol). rewrite Heq. unfold column_values.
  by apply list_elem_of_fmap_2.
Qed.

Lemma ledger_tickets_never_eligible_witness :
  (∃ pool, eligible_pool Demo.fichiers = Ok pool
           ∧ rows pool = [Demo.participant "Bob" "Benevole" "T4"])
  ∧ has_column colonne_id_ticket Demo.gagnants = true
  ∧ ∀ r : row, r ∈ rows Demo.gagnants →
      Demo.participant "Bob" "Benevole" "T4" !! colonne_id_ticket
      ≠ r !! colonne_id_ticket.
Proof.
  destruct (eligible_pool Demo.fichiers) as [pool|c] eqn:Hpool;
    [|by vm_compute in Hpool].
  assert (rows pool = [Demo.participant "Bob" "Benevole" "T4"]) as Hrows
    by (by vm_compute in Hpool; injection Hpool as <-).
  split; [by exists pool|]. split; [reflexivity|].
  intros r Hr.
  apply (ledger_tickets_never_eligible Demo.fichiers pool Demo.gagnants
           _ r Hpool eq_refl eq_refl); [|exact Hr].
  rewrite Hrows. left.
Defined.

(** ** The pool is a part of the candidates *)

Lemma filter_eligible_sublist df_entree names df_g eligibles :
  filter_eligible df_entree names df_g = Ok eligibles →
  rows eligibles `sublist_of` rows df_entree.
Proof.
  unfold filter_eligible.
  destruct (has_column colonne_nom df_entree); simpl; [|done].
  assert (∀ keep df, rows (select keep df) `sublist_of` rows df) as Hsel.
  { intros keep df. unfold select. simpl. apply sublist_filter. }
  destruct df_g as [g|]; [|intros [= <-]; apply Hsel].
  destruct (has_column colonne_id_ticket g); [|intros [= <-]; apply Hsel].
  destruct (has_column colonne_id_ticket (select _ df_entree)); simpl;
    [|done].
  intros [= <-]. etrans; apply Hsel.
Qed.

(** X2. The eligible pool is a part of the candidate table: the same
    columns, and rows taken from the candidates without addition,
    duplication or reordering. *)
Theorem eligible_pool_part_of_candidates fs pool :
  eligible_pool fs = Ok pool →
  columns pool = columns (candidates fs)
  ∧ rows pool `sublist_of` rows (candidates fs)
  ∧ len pool ≤ len (candidates fs).
Proof.
  intros Hpool. unfold eligible_pool in Hpool.
  split; [by eapply columns_filter_eligible|].
  pose proof (filter_eligible_sublist _ _ _ _ Hpool) as Hsub.
  split; [done|]. unfold len. by apply sublist_length.
Qed.

Lemma eligible_pool_part_of_candidates_witness :
  ∃ pool, eligible_pool Demo.fichiers = Ok pool
          ∧ columns pool = columns (candidates Demo.fichiers)
          ∧ len pool ≤ len (candidates Demo.fichiers).
Proof.
  destruct (eligible_pool Demo.fichiers) as [pool|c] eqn:Hpool;
    [|by vm_compute in Hpool].
  exists pool. split; [reflexivity|].
  destruct (eligible_pool_part_of_candidates Demo.fichiers pool Hpool)
    as (Hc & _ & Hl).
  split; [exact Hc|exact Hl].
Defined.

(** ** What a draw leaves behind *)

Lemma candidates_files fs g :
  candidates (mkFiles (event_registration_visiteurs fs)
                      (event_registration_benevoles fs) g)
  = candidates fs.
Proof. reflexivity. Qed.

(** The run that ends in a draw, in full. *)
Lemma main_drawn fs typed seed now nouveaux :
  ending (main fs typed seed now) = Drawn nouveaux →
  ∃ n pool,
    typed = Entered n ∧ (0 < n)%Z ∧ (n ≤ Z.of_nat (len pool))%Z
    ∧ eligible_pool fs = Ok pool
    ∧ nouveaux = assign heure_du_tirage (Text (strftime now))
                        (sample seed (Z.to_nat n) pool)
    ∧ files (main fs typed seed now)
      = mkFiles (event_registration_visiteurs fs)
                (event_registration_benevoles fs)
                (Some (df_final_gagnants (gagnants_combines fs) nouveaux))
    ∧ trace (main fs typed seed now)
      = prompt_trace fs pool
        ++ [Input; Sample (Z.to_nat n); Now;
            Print (NouveauxGagnants n nouveaux);
            ToExcel (df_final_gagnants (gagnants_combines fs) nouveaux);
            Print ListeMiseAJour].
Proof.
  intros Hend.
  destruct (main_drawn_inv _ _ _ _ _ Hend)
    as (n & pool & -> & Hpos & Hle & Hpool & Hmain).
  exists n, pool. rewrite Hmain in Hend |- *.
  rewrite draw_and_save_drawn in Hend |- * by done.
  simpl in Hend |- *. injection Hend as <-.
  by rewrite ledger_read_eq.
Qed.

(** A run that does not end in a draw. *)
Lemma main_not_drawn fs typed seed now :
  (∀ df, ending (main fs typed seed now) ≠ Drawn df) →
  files (main fs typed seed now) = fs
  ∧ no_draw_effect (trace (main fs typed seed now)).
Proof.
  rewrite main_unfold.
  destruct (is_empty (candidates fs)); simpl.
  { intros _. split; [done|]. apply no_draw_effect_app.
    split; [apply no_draw_effect_loading|repeat constructor]. }
  destruct (eligible_pool fs) as [pool|c]; simpl.
  2:{ intros _. split; [done|]. apply no_draw_effect_app.
      split; [apply no_draw_effect_loading|apply no_draw_effect_ledger]. }
  destruct (is_empty pool); simpl.
  { intros _. split; [done|]. apply no_draw_effect_app.
    split; [apply no_draw_effect_prompt|repeat constructor]. }
  destruct typed as [|n].
  { intros _. simpl. split; [done|]. apply no_draw_effect_app.
    split; [apply no_draw_effect_prompt|repeat constructor]. }
  destruct (decide (n ≤ 0)%Z) as [Hn|Hn].
  { rewrite draw_and_save_refused by eauto. intros _. simpl.
    split; [done|]. apply no_draw_effect_app.
    split; [apply no_draw_effect_prompt|repeat constructor]. }
  destruct (decide (Z.of_nat (len pool) < n)%Z) as [Hlt|Hlt].
  { rewrite draw_and_save_not_enough by lia. intros _. simpl.
    split; [done|]. apply no_draw_effect_app.
    split; [apply no_draw_effect_prompt|repeat constructor]. }
  rewrite draw_and_save_drawn by lia. simpl. intros Hno.
  by destruct (Hno _ eq_refl).
Qed.

Lemma elem_of_columns_assign c h v df :
  c ∈ columns (assign h v df) ↔ c ∈ columns df ∨ c = h.
Proof.
  unfold assign. simpl. destruct (has_column h df) eqn:Hh.
  - apply bool_decide_eq_true in Hh. split; [by left|].
    by intros [?| ->].
  - rewrite elem_of_app, list_elem_of_singleton. done.
Qed.

Lemma elem_of_columns_df_final g_opt nouveaux c :
  c ∈ columns nouveaux → c ∈ columns (df_final_gagnants g_opt nouveaux).
Proof.
  intros Hc. unfold df_final_gagnants. destruct g_opt as [g|]; [|done].
  destruct (is_empty g); simpl; [done|].
  apply elem_of_app. destruct (decide (c ∈ columns g)); [by left|].
  right. by apply list_elem_of_filter.
Qed.

Lemma rows_df_final_incl g_opt nouveaux (r : row) :
  r ∈ rows nouveaux → r ∈ rows (df_final_gagnants g_opt nouveaux).
Proof.
  intros Hr. unfold df_final_gagnants. destruct g_opt as [g|]; [|done].
  destruct (is_empty g); simpl; [done|]. apply elem_of_app. by right.
Qed.

Lemma df_final_not_empty g_opt nouveaux :
  is_empty nouveaux = false →
  is_empty (df_final_gagnants g_opt nouveaux) = false.
Proof.
  intros Hn. unfold df_final_gagnants. destruct g_opt as [g|]; [|done].
  destruct (is_empty g) eqn:Hg; simpl; [done|].
  unfold is_empty in *. simpl.
  apply orb_false_iff in Hg as [Hr Hc]. apply orb_false_iff.
  apply bool_decide_eq_false in Hr, Hc.
  split; apply bool_decide_eq_false.
  - by destruct (rows g).
  - by destruct (columns g).
Qed.

(** X3. After a run that ends in a draw, on the files the run leaves and
    with the same candidates that have the ticket column, the next run's
    eligible pool holds no row with the ticket cell of a new winner; in
    particular a row that was just drawn is never eligible again, whatever
    its role. *)
Theorem drawn_rows_not_eligible_next_run
    fs typed seed now nouveaux pool' :
  ending (main fs typed seed now) = Drawn nouveaux →
  has_column colonne_id_ticket (candidates fs) = true →
  eligible_pool (files (main fs typed seed now)) = Ok pool' →
  candidates (files (main fs typed seed now)) = candidates fs
  ∧ (∀ c w : row, c ∈ rows pool' → w ∈ rows nouveaux →
       c !! colonne_id_ticket ≠ w !! colonne_id_ticket)
  ∧ (∀ c : row,
       <[heure_du_tirage := Text (strftime now)]> c ∈ rows nouveaux →
       c ∉ rows pool').
Proof.
  intros Hend Hcol Hpool'.
  destruct (main_drawn _ _ _ _ _ Hend)
    as (n & pool & -> & Hpos & Hle & Hpool & Hnew & Hfiles & _).
  rewrite Hfiles in Hpool' |- *. split; [done|].
  assert (∀ c w : row, c ∈ rows pool' → w ∈ rows nouveaux →
            c !! colonne_id_ticket ≠ w !! colonne_id_ticket) as Hticket.
  { intros c w Hc Hw Heq.
    apply (eligible_pool_elem _ _ c Hpool') in Hc as (_ & _ & Hfree).
    simpl in Hfree.
    apply (Hfree (df_final_gagnants (gagnants_combines fs) nouveaux) eq_refl).
    - apply bool_decide_eq_true, elem_of_columns_df_final.
      rewrite Hnew. apply elem_of_columns_assign. left. simpl.
      apply bool_decide_eq_true in Hcol.
      unfold eligible_pool in Hpool.
      by rewrite (columns_filter_eligible _ _ _ _ Hpool).
    - rewrite Heq. unfold column_values. apply list_elem_of_fmap_2.
      by apply rows_df_final_incl. }
  split; [done|]. intros c Hw Hc.
  apply (Hticket c _ Hc Hw). by rewrite lookup_insert_ne.
Qed.

Lemma drawn_rows_not_eligible_next_run_witness :
  ∃ nouveaux pool',
    ending (main Demo.fichiers (Entered 1) [] Demo.midi) = Drawn nouveaux
    ∧ has_column colonne_id_ticket (candidates Demo.fichiers) = true
    ∧ eligible_pool (files (main Demo.fichiers (Entered 1) [] Demo.midi))
      = Ok pool'
    ∧ ∀ c w : row, c ∈ rows pool' → w ∈ rows nouveaux →
        c !! colonne_id_ticket ≠ w !! colonne_id_ticket.
Proof.
  destruct (ending (main Demo.fichiers (Entered 1) [] Demo.midi))
    as [| | | | |nouveaux|] eqn:Hend; try (by vm_compute in Hend).
  destruct (eligible_pool (files (main Demo.fichiers (Entered 1) []
                                       Demo.midi)))
    as [pool'|c] eqn:Hpool'; [|by vm_compute in Hpool'].
  exists nouveaux, pool'. split; [reflexivity|]. split; [reflexivity|].
  split; [reflexivity|].
  destruct (drawn_rows_not_eligible_next_run Demo.fichiers (Entered 1) []
              Demo.midi nouveaux pool' Hend eq_refl Hpool')
    as (_ & Hticket & _).
  exact Hticket.
Defined.

(** ** What a run may change *)

Lemma sample_not_empty seed n pool now :
  (0 < n)%Z → (n ≤ Z.of_nat (len pool))%Z →
  is_empty (assign heure_du_tirage (Text (strftime now))
                   (sample seed (Z.to_nat n) pool)) = false.
Proof.
  intros Hpos Hle. unfold is_empty. apply orb_false_iff.
  split; apply bool_decide_eq_false.
  - simpl. intros Hnil. apply (f_equal length) in Hnil.
    rewrite length_fmap, length_sample_rows in Hnil; simpl in Hnil;
      unfold len in *; lia.
  - intros Hnil.
    assert (heure_du_tirage
              ∈ columns (assign heure_du_tirage (Text (strftime now))
                                (sample seed (Z.to_nat n) pool))) as Hin
      by (apply elem_of_columns_assign; by right).
    rewrite Hnil in Hin. by apply elem_of_nil in Hin.
Qed.

(** X4. A run never touches the two candidate files. It changes the ledger
    file only by ending in a draw: a run that ends any other way leaves the
    three files as they were and neither samples, reads the clock nor writes;
    a run that ends in a draw leaves a ledger that is not empty, which is the
    table it wrote. *)
Theorem run_writes_only_by_drawing fs typed seed now :
  let run := main fs typed seed now in
  event_registration_visiteurs (files run) = event_registration_visiteurs fs
  ∧ event_registration_benevoles (files run)
    = event_registration_benevoles fs
  ∧ ((∀ df, ending run ≠ Drawn df) →
     files run = fs ∧ no_draw_effect (trace run))
  ∧ (∀ df, ending run = Drawn df →
       ∃ final, gagnants_combines (files run) = Some final
                ∧ ToExcel final ∈ trace run
                ∧ is_empty final = false).
Proof.
  cbv zeta.
  assert (∀ df, ending (main fs typed seed now) = Drawn df →
            event_registration_visiteurs (files (main fs typed seed now))
            = event_registration_visiteurs fs
            ∧ event_registration_benevoles (files (main fs typed seed now))
              = event_registration_benevoles fs
            ∧ ∃ final,
                gagnants_combines (files (main fs typed seed now))
                = Some final
                ∧ ToExcel final ∈ trace (main fs typed seed now)
                ∧ is_empty final = false) as Hdrawn.
  { intros df Hend.
    destruct (main_drawn _ _ _ _ _ Hend)
      as (n & pool & -> & Hpos & Hle & Hpool & Hnew & Hfiles & Htrace).
    rewrite Hfiles, Htrace. simpl. split; [done|]. split; [done|].
    eexists. split; [done|]. split; [set_solver|].
    apply df_final_not_empty. rewrite Hnew. by apply sample_not_empty. }
  destruct (ending (main fs typed seed now)) as [| | | | |df|c] eqn:Hend;
    try (destruct (main_not_drawn fs typed seed now) as [Hf Ht];
         [by rewrite Hend|];
         rewrite Hf; repeat split; done).
  destruct (Hdrawn df eq_refl) as (Hv & Hb & Hfinal).
  split; [done|]. split; [done|]. split.
  - intros Hno. by destruct (Hno df).
  - intros df' _. done.
Qed.

(** ** The ledger over several runs *)

Lemma main_ledger_step fs typed seed now :
  ledger_ok fs →
  ledger_rows fs `prefix_of` ledger_rows (files (main fs typed seed now))
  ∧ ledger_ok (files (main fs typed seed now))
  ∧ event_registration_visiteurs (files (main fs typed seed now))
    = event_registration_visiteurs fs
  ∧ event_registration_benevoles (files (main fs typed seed now))
    = event_registration_benevoles fs.
Proof.
  intros Hok.
  destruct (ending (main fs typed seed now)) as [| | | | |df|c] eqn:Hend;
    try (destruct (main_not_drawn fs typed seed now) as [Hf _];
         [by rewrite Hend|]; by rewrite Hf).
  destruct (main_drawn _ _ _ _ _ Hend)
    as (n & pool & -> & Hpos & Hle & Hpool & Hnew & Hfiles & _).
  rewrite Hfiles. unfold ledger_rows at 2. simpl.
  split.
  { rewrite rows_df_final_gagnants by done. by apply prefix_app_r. }
  split; [|done].
  intros g [= <-] Hcols. exfalso.
  assert (heure_du_tirage
            ∈ columns (df_final_gagnants (gagnants_combines fs) df)) as Hin.
  { apply elem_of_columns_df_final. rewrite Hnew.
    apply elem_of_columns_assign. by right. }
  rewrite Hcols in Hin. by apply elem_of_nil in Hin.
Qed.

(** X5. Over any number of runs, each on the files the previous one left,
    the ledger only grows at its end: the rows it had at the start are still
    there, unchanged and in the same order, at the head of the ledger after
    the last run; the two candidate files are as they were. *)
Theorem ledger_only_grows fs sessions :
  ledger_ok fs →
  ledger_rows fs `prefix_of` ledger_rows (runs fs sessions)
  ∧ event_registration_visiteurs (runs fs sessions)
    = event_registration_visiteurs fs
  ∧ event_registration_benevoles (runs fs sessions)
    = event_registration_benevoles fs.
Proof.
  revert fs. induction sessions as [|s rest IH]; intros fs Hok; [done|].
  simpl.
  destruct (main_ledger_step fs (typed_count s) (random_source s) (clock s)
              Hok) as (Hpre & Hok' & Hv & Hb).
  destruct (IH _ Hok') as (Hpre' & Hv' & Hb').
  split; [by etrans|]. split; congruence.
Qed.

Lemma ledger_only_grows_witness :
  ledger_ok Demo.fichiers
  ∧ ledger_rows Demo.fichiers
      `prefix_of`
      ledger_rows (runs Demo.fichiers
                        [mkSession (Entered 1) [] Demo.midi;
                         mkSession NotAnInteger [] Demo.midi;
                         mkSession (Entered 1) [] Demo.midi])
  ∧ length (ledger_rows (runs Demo.fichiers
                              [mkSession (Entered 1) [] Demo.midi;
                               mkSession NotAnInteger [] Demo.midi;
                               mkSession (Entered 1) [] Demo.midi])) = 5.
Proof.
  assert (ledger_ok Demo.fichiers) as Hok by (by intros g [= <-]).
  split; [exact Hok|]. split; [|by vm_compute].
  destruct (ledger_only_grows Demo.fichiers
              [mkSession (Entered 1) [] Demo.midi;
               mkSession NotAnInteger [] Demo.midi;
               mkSession (Entered 1) [] Demo.midi] Hok) as [Hpre _].
  exact Hpre.
Defined.

(** ** Once excluded, always excluded *)

Lemma has_column_concat_l c a b :
  has_column c a = true → has_column c (concat a b) = true.
Proof.
  unfold has_column, concat. simpl. intros Hc.
  apply bool_decide_eq_true in Hc. apply bool_decide_eq_true.
  apply elem_of_app. by left.
Qed.

Lemma ineligible_names_concat g extra name role v :
  has_column name g = true → has_column role g = true →
  Some v ∈ ineligible_names g name role →
  Some v ∈ ineligible_names (concat g extra) name role.
Proof.
  intros Hn Hr.
  rewrite !elem_of_ineligible_names by (done || by apply has_column_concat_l).
  unfold won_as_other, wins_as_benevole, concat. simpl.
  intros [(r & Hin & ? & ?)|Hw].
  - left. exists r. split; [|done]. apply elem_of_app. by left.
  - right. rewrite filter_app, length_app. lia.
Qed.

Lemma excluded_names_Some fs v :
  Some v ∈ excluded_names fs →
  ∃ g, gagnants_combines fs = Some g ∧ is_empty g = false
       ∧ has_column colonne_nom g = true ∧ has_column colonne_role g = true
       ∧ excluded_names fs = ineligible_names g colonne_nom colonne_role.
Proof.
  intros Hv. unfold excluded_names in *.
  destruct (gagnants_combines fs) as [g|]; [|by apply elem_of_nil in Hv].
  exists g. split; [done|].
  destruct (is_empty g) eqn:He.
  { unfold get_ineligible_participants in Hv. rewrite He in Hv.
    by apply elem_of_nil in Hv. }
  destruct (has_column colonne_nom g) eqn:Hn.
  2:{ unfold get_ineligible_participants in Hv. rewrite He, Hn in Hv.
      by apply elem_of_nil in Hv. }
  destruct (has_column colonne_role g) eqn:Hr.
  2:{ unfold get_ineligible_participants in Hv. rewrite He, Hn, Hr in Hv.
      by apply elem_of_nil in Hv. }
  done.
Qed.

Lemma excluded_names_step fs typed seed now v :
  Some v ∈ excluded_names fs →
  Some v ∈ excluded_names (files (main fs typed seed now)).
Proof.
  intros Hv.
  destruct (ending (main fs typed seed now)) as [| | | | |df|c] eqn:Hend;
    try (destruct (main_not_drawn fs typed seed now) as [Hf _];
         [by rewrite Hend|]; by rewrite Hf).
  destruct (main_drawn _ _ _ _ _ Hend)
    as (n & pool & -> & Hpos & Hle & Hpool & Hnew & Hfiles & _).
  destruct (excluded_names_Some fs v Hv) as (g & Hg & He & Hn & Hr & Heq).
  rewrite Heq in Hv. rewrite Hfiles. unfold excluded_names. simpl.
  rewrite Hg. unfold df_final_gagnants. rewrite He. simpl.
  by apply ineligible_names_concat.
Qed.

(** X6. A name the role rule excludes stays excluded: over any number of
    further runs, each on the files the previous one left, it is still among
    the names [get_ineligible_participants] returns. *)
Theorem excluded_name_stays_excluded fs sessions v :
  Some v ∈ excluded_names fs →
  Some v ∈ excluded_names (runs fs sessions).
Proof.
  revert fs. induction sessions as [|s rest IH]; intros fs Hv; [done|].
  simpl. by apply IH, excluded_names_step.
Qed.

Lemma excluded_name_stays_excluded_witness :
  Some (Text "Alice") ∈ excluded_names Demo.fichiers
  ∧ Some (Text "Alice")
      ∈ excluded_names (runs Demo.fichiers
                             [mkSession (Entered 1) [] Demo.midi;
                              mkSession (Entered 1) [7] Demo.midi]).
Proof.
  assert (Some (Text "Alice") ∈ excluded_names Demo.fichiers) as Hv.
  { change (excluded_names Demo.fichiers)
      with (ineligible_names Demo.gagnants colonne_nom colonne_role).
    assert (ineligible_names Demo.gagnants colonne_nom colonne_role
            = [Some (Text "Alice"); Some (Text "Chloe")]) as ->
      by (by vm_compute).
    left. }
  split; [exact Hv|].
  exact (excluded_name_stays_excluded Demo.fichiers _ _ Hv).
Defined.

(** ** Loading the candidates *)

Lemma rows_candidates fs :
  rows (candidates fs)
  = file_rows (event_registration_visiteurs fs)
    ++ file_rows (event_registration_benevoles fs).
Proof.
  unfold candidates, load_and_concatenate_participants, load_one.
  by destruct (event_registration_visiteurs fs),
              (event_registration_benevoles fs).
Qed.

(** X7. [load_and_concatenate_participants] never fails on a missing file:
    the candidates are the rows of the visitors' file followed by the rows of
    the volunteers' file, a missing file contributing no row and a printed
    warning; a column is a column of the candidates exactly when one of the
    files that exist has it. *)
Theorem candidates_are_both_files fs :
  rows (candidates fs)
  = file_rows (event_registration_visiteurs fs)
    ++ file_rows (event_registration_benevoles fs)
  ∧ (∀ c, c ∈ columns (candidates fs)
          ↔ (∃ df, event_registration_visiteurs fs = Some df
                   ∧ c ∈ columns df)
            ∨ (∃ df, event_registration_benevoles fs = Some df
                     ∧ c ∈ columns df))
  ∧ (event_registration_visiteurs fs = None →
     Print (FichierIntrouvable Visiteurs) ∈ loading_trace fs)
  ∧ (event_registration_benevoles fs = None →
     Print (FichierIntrouvable Benevoles) ∈ loading_trace fs)
  ∧ Print (TotalParticipants
             (length (file_rows (event_registration_visiteurs fs))
              + length (file_rows (event_registration_benevoles fs))))
    ∈ loading_trace fs.
Proof.
  split; [apply rows_candidates|].
  unfold candidates, loading_trace, load_and_concatenate_participants,
    load_one, len.
  destruct (event_registration_visiteurs fs) as [v|],
    (event_registration_benevoles fs) as [b|]; simpl.
  - split.
    { intros c. rewrite elem_of_app, list_elem_of_filter. split.
      - intros [?|[? ?]]; [left|right]; eauto.
      - intros [(? & [= <-] & ?)|(? & [= <-] & ?)]; [by left|].
        destruct (decide (c ∈ columns v)); [by left|by right]. }
    split; [done|]. split; [done|]. rewrite length_app. set_solver.
  - split.
    { intros c. rewrite app_nil_r. split; [left; eauto|].
      by intros [(? & [= <-] & ?)|(? & ? & ?)]. }
    split; [done|]. split; [set_solver|].
    rewrite app_nil_r, Nat.add_0_r. set_solver.
  - split.
    { intros c. rewrite list_elem_of_filter. split.
      - intros [_ ?]. right. eauto.
      - intros [(? & ? & ?)|(? & [= <-] & ?)]; [done|].
        split; [apply not_elem_of_nil|done]. }
    split; [set_solver|]. split; [done|]. set_solver.
  - split.
    { intros c. rewrite elem_of_nil. split; [done|].
      by intros [(? & ? & ?)|(? & ? & ?)]. }
    split; [set_solver|]. split; set_solver.
Qed.

(** ** Runs that stop early *)

(** X8. When no candidate file contributes a row (missing files, empty
    files), the run stops right after loading: it prints that there is no
    participant, does not look at the ledger, does not prompt, and leaves the
    files as they were. *)
Theorem no_candidate_row_stops_run fs typed seed now :
  file_rows (event_registration_visiteurs fs) = [] →
  file_rows (event_registration_benevoles fs) = [] →
  let run := main fs typed seed now in
  ending run = StoppedNoParticipant
  ∧ files run = fs
  ∧ trace run = loading_trace fs ++ [Print AucunParticipant]
  ∧ Input ∉ trace run.
Proof.
  intros Hv Hb. cbv zeta. rewrite main_unfold.
  assert (is_empty (candidates fs) = true) as ->.
  { unfold is_empty. rewrite rows_candidates, Hv, Hb. done. }
  simpl. repeat split.
  intros Hin. apply elem_of_app in Hin as [Hin|Hin]; [|set_solver].
  apply (Input_not_in_prompt fs empty_frame). unfold prompt_trace.
  set_solver.
Qed.

Lemma no_candidate_row_stops_run_witness :
  file_rows (event_registration_visiteurs Cas.sans_candidat) = []
  ∧ file_rows (event_registration_benevoles Cas.sans_candidat) = []
  ∧ ending (main Cas.sans_candidat (Entered 1) [] Demo.midi)
    = StoppedNoParticipant
  ∧ files (main Cas.sans_candidat (Entered 1) [] Demo.midi)
    = Cas.sans_candidat.
Proof.
  split; [reflexivity|]. split; [reflexivity|].
  destruct (no_candidate_row_stops_run Cas.sans_candidat (Entered 1) []
              Demo.midi eq_refl eq_refl) as (He & Hf & _).
  split; [exact He|exact Hf].
Defined.

Lemma eligible_pool_KeyError fs c :
  eligible_pool fs = KeyError c
  ↔ (c = colonne_nom ∧ has_column colonne_nom (candidates fs) = false)
    ∨ (c = colonne_id_ticket
       ∧ has_column colonne_nom (candidates fs) = true
       ∧ has_column colonne_id_ticket (candidates fs) = false
       ∧ ∃ g, gagnants_combines fs = Some g
              ∧ has_column colonne_id_ticket g = true).
Proof.
  unfold eligible_pool. rewrite ledger_read_eq. unfold filter_eligible.
  destruct (has_column colonne_nom (candidates fs)) eqn:Hn; simpl.
  2:{ split; [intros [= <-]; by left|].
      intros [[-> _]|(_ & ? & _)]; done. }
  destruct (gagnants_combines fs) as [g|].
  2:{ split; [done|]. intros [[_ ?]|(_ & _ & _ & g & ? & _)]; done. }
  destruct (has_column colonne_id_ticket g) eqn:Hg.
  2:{ split; [done|].
      intros [[_ ?]|(_ & _ & _ & g' & [= <-] & ?)]; congruence. }
  change (has_column colonne_id_ticket (select _ (candidates fs)))
    with (has_column colonne_id_ticket (candidates fs)).
  destruct (has_column colonne_id_ticket (candidates fs)) eqn:Ht; simpl.
  - split; [done|]. intros [[_ ?]|(_ & _ & ? & _)]; done.
  - split.
    + intros [= <-]. right. repeat split; eauto.
    + intros [[_ ?]|(-> & _)]; done.
Qed.

(** X9. The run raises [KeyError] in exactly two cases: the candidates lack
    the name column, or they have it, lack the ticket column, and the ledger
    has the ticket column (even without rows). When it does, with candidates
    loaded, the exception is uncaught: the run ends there without prompting,
    sampling or writing, the files as they were. *)
Theorem run_raises_on_missing_column fs typed seed now c :
  is_empty (candidates fs) = false →
  eligible_pool fs = KeyError c →
  let run := main fs typed seed now in
  ((c = colonne_nom ∧ has_column colonne_nom (candidates fs) = false)
   ∨ (c = colonne_id_ticket
      ∧ has_column colonne_nom (candidates fs) = true
      ∧ has_column colonne_id_ticket (candidates fs) = false
      ∧ ∃ g, gagnants_combines fs = Some g
             ∧ has_column colonne_id_ticket g = true))
  ∧ ending run = Uncaught c
  ∧ files run = fs
  ∧ Input ∉ trace run
  ∧ no_draw_effect (trace run).
Proof.
  intros Hcand Hpool. cbv zeta.
  split; [by apply eligible_pool_KeyError|].
  rewrite main_unfold, Hcand, Hpool. simpl. split; [done|]. split; [done|].
  split.
  - intros Hin. apply (Input_not_in_prompt fs empty_frame).
    unfold prompt_trace. set_solver.
  - apply no_draw_effect_app.
    split; [apply no_draw_effect_loading|apply no_draw_effect_ledger].
Qed.

Lemma run_raises_on_missing_column_witness :
  is_empty (candidates Cas.sans_nom) = false
  ∧ eligible_pool Cas.sans_nom = KeyError colonne_nom
  ∧ ending (main Cas.sans_nom (Entered 1) [] Demo.midi)
    = Uncaught colonne_nom
  ∧ is_empty (candidates Cas.sans_ticket) = false
  ∧ eligible_pool Cas.sans_ticket = KeyError colonne_id_ticket
  ∧ ending (main Cas.sans_ticket (Entered 1) [] Demo.midi)
    = Uncaught colonne_id_ticket.
Proof.
  assert (eligible_pool Cas.sans_nom = KeyError colonne_nom) as H1
    by (by vm_compute).
  assert (eligible_pool Cas.sans_ticket = KeyError colonne_id_ticket) as H2
    by (by vm_compute).
  split; [reflexivity|]. split; [exact H1|]. split.
  { destruct (run_raises_on_missing_column Cas.sans_nom (Entered 1) []
                Demo.midi colonne_nom eq_refl H1) as (_ & He & _).
    exact He. }
  split; [reflexivity|]. split; [exact H2|].
  destruct (run_raises_on_missing_column Cas.sans_ticket (Entered 1) []
              Demo.midi colonne_id_ticket eq_refl H2) as (_ & He & _).
  exact He.
Defined.

(** ** The winners of one draw *)

Lemma NoDup_submseteq_inv {A} (l k : list A) : l ⊆+ k → NoDup k → NoDup l.
Proof.
  intros Hsub Hnd. apply submseteq_Permutation in Hsub as [k' Hk'].
  rewrite Hk' in Hnd. by apply NoDup_app in Hnd as [? _].
Qed.

Lemma column_values_stamped c ts (l : list row) :
  c ≠ heure_du_tirage →
  (λ r : row, r !! c) <$> ((insert heure_du_tirage ts : row → row) <$> l)
  = (λ r : row, r !! c) <$> l.
Proof.
  intros Hc. rewrite <- list_fmap_compose. apply list_fmap_ext.
  intros _ r _. simpl. by rewrite lookup_insert_ne.
Qed.

(** X10. The winners of a draw are taken from the pool without replacement:
    in every column but the stamp, the cells of the winners are cells of
    distinct rows of the pool. So when no two rows of the eligible pool have
    the same ticket, no two winners have the same ticket. *)
Theorem winners_tickets_distinct fs typed seed now nouveaux pool :
  ending (main fs typed seed now) = Drawn nouveaux →
  eligible_pool fs = Ok pool →
  NoDup (column_values colonne_id_ticket pool) →
  (∀ c, c ≠ heure_du_tirage →
        column_values c nouveaux ⊆+ column_values c pool)
  ∧ NoDup (column_values colonne_id_ticket nouveaux)
  ∧ NoDup (rows nouveaux).
Proof.
  intros Hend Hpool Hnd.
  destruct (main_drawn _ _ _ _ _ Hend)
    as (n & pool0 & -> & Hpos & Hle & Hpool0 & -> & _).
  rewrite Hpool in Hpool0. injection Hpool0 as <-.
  assert (∀ c, c ≠ heure_du_tirage →
            column_values c (assign heure_du_tirage (Text (strftime now))
                                    (sample seed (Z.to_nat n) pool))
            ⊆+ column_values c pool) as Hsub.
  { intros c Hc. unfold column_values. simpl.
    rewrite column_values_stamped by done.
    apply fmap_submseteq, sample_rows_submseteq. }
  split; [done|].
  assert (NoDup (column_values colonne_id_ticket
                   (assign heure_du_tirage (Text (strftime now))
                           (sample seed (Z.to_nat n) pool)))) as Hnd'.
  { eapply NoDup_submseteq_inv; [apply Hsub|]; done. }
  split; [done|]. by apply NoDup_fmap_1 in Hnd'.
Qed.

Lemma winners_tickets_distinct_witness :
  ∃ nouveaux pool,
    ending (main Demo.premier_tirage (Entered 3) [2; 5; 1] Demo.midi)
    = Drawn nouveaux
    ∧ eligible_pool Demo.premier_tirage = Ok pool
    ∧ NoDup (column_values colonne_id_ticket pool)
    ∧ NoDup (column_values colonne_id_ticket nouveaux)
    ∧ len nouveaux = 3.
Proof.
  destruct (ending (main Demo.premier_tirage (Entered 3) [2; 5; 1]
                         Demo.midi))
    as [| | | | |nouveaux|] eqn:Hend; try (by vm_compute in Hend).
  destruct (eligible_pool Demo.premier_tirage) as [pool|c] eqn:Hpool;
    [|by vm_compute in Hpool].
  assert (NoDup (column_values colonne_id_ticket pool)) as Hnd.
  { vm_compute in Hpool. injection Hpool as <-.
    apply (bool_decide_unpack _). by vm_compute. }
  exists nouveaux, pool. split; [reflexivity|]. split; [reflexivity|].
  split; [exact Hnd|].
  destruct (winners_tickets_distinct Demo.premier_tirage (Entered 3)
              [2; 5; 1] Demo.midi nouveaux pool Hend Hpool Hnd)
    as (_ & Hnd' & _).
  split; [exact Hnd'|].
  vm_compute in Hend. injection Hend as <-. reflexivity.
Defined.

(** X11. Asking for as many winners as there are eligible rows draws them
    all: the winners are the rows of the pool, stamped, in some order. *)
Theorem full_count_draws_whole_pool fs seed now nouveaux pool :
  eligible_pool fs = Ok pool →
  ending (main fs (Entered (Z.of_nat (len pool))) seed now)
  = Drawn nouveaux →
  rows nouveaux
  ≡ₚ (insert heure_du_tirage (Text (strftime now)) : row → row)
       <$> rows pool.
Proof.
  intros Hpool Hend.
  destruct (main_drawn _ _ _ _ _ Hend)
    as (n & pool0 & [= <-] & Hpos & Hle & Hpool0 & -> & _).
  rewrite Hpool in Hpool0. injection Hpool0 as <-.
  simpl. apply fmap_Permutation.
  apply submseteq_length_Permutation; [apply sample_rows_submseteq|].
  rewrite length_sample_rows; unfold len; lia.
Qed.

Lemma full_count_draws_whole_pool_witness :
  ∃ nouveaux pool,
    eligible_pool Demo.premier_tirage = Ok pool
    ∧ len pool = 4
    ∧ ending (main Demo.premier_tirage (Entered 4) [3; 3; 0] Demo.midi)
      = Drawn nouveaux
    ∧ rows nouveaux
      ≡ₚ (insert heure_du_tirage (Text (strftime Demo.midi)) : row → row)
           <$> rows pool.
Proof.
  destruct (eligible_pool Demo.premier_tirage) as [pool|c] eqn:Hpool;
    [|by vm_compute in Hpool].
  assert (len pool = 4) as Hlen
    by (by vm_compute in Hpool; injection Hpool as <-).
  destruct (ending (main Demo.premier_tirage (Entered 4) [3; 3; 0]
                         Demo.midi))
    as [| | | | |nouveaux|] eqn:Hend; try (by vm_compute in Hend).
  exists nouveaux, pool. split; [reflexivity|]. split; [exact Hlen|].
  split; [reflexivity|].
  apply (full_count_draws_whole_pool Demo.premier_tirage [3; 3; 0]
           Demo.midi nouveaux pool Hpool).
  rewrite Hlen. exact Hend.
Defined.

(** * Further properties of the answer pivot *)

(** ** The columns of the pivot *)

(** A strictly increasing list of naturals that holds, with each of its
    elements, the naturals below it down to [a], and nothing below [a], counts
    from [a]. *)
Lemma sorted_closed_seq (l : list nat) a :
  StronglySorted (<) l →
  Forall (λ n, a ≤ n) l →
  (∀ n m, n ∈ l → a ≤ m < n → m ∈ l) →
  l = seq a (length l).
Proof.
  intros Hs. revert a. induction Hs as [|x l Hs IH Hlt]; intros a Hge Hcl.
  { done. }
  apply Forall_cons in Hge as [Hx Hge].
  assert (x = a) as ->.
  { destruct (decide (x = a)) as [|Hne]; [done|].
    assert (a ∈ x :: l) as Ha by (apply (Hcl x); [left|lia]).
    apply elem_of_cons in Ha as [->|Ha]; [done|].
    rewrite Forall_forall in Hlt. specialize (Hlt a Ha). lia. }
  simpl. f_equal. apply IH.
  - eapply Forall_impl; [exact Hlt|]. simpl. lia.
  - intros n m Hn Hm.
    assert (m ∈ a :: l) as Hin by (apply (Hcl n); [by right|lia]).
    apply elem_of_cons in Hin as [->|?]; [lia|done].
Qed.

Lemma elem_of_ordinals_group_data (file : list answer_row) n :
  n ∈ ordinals (pivot_table (group_data_by_nam_email file))
  ↔ ∃ k, n < length (answers_of k file).
Proof.
  rewrite elem_of_ordinals. setoid_rewrite first_valid_group_data. split.
  - intros (k & a & Ha). exists k. by eapply lookup_lt_Some.
  - intros (k & Hn). destruct (lookup_lt_is_Some_2 _ _ Hn) as [a Ha].
    by exists k, a.
Qed.

Lemma ordinals_group_data_seq (file : list answer_row) :
  ordinals (pivot_table (group_data_by_nam_email file))
  = seq 0 (length (ordinals (pivot_table (group_data_by_nam_email file)))).
Proof.
  apply sorted_closed_seq.
  - apply StronglySorted_ordinals.
  - apply Forall_forall. intros; lia.
  - intros n m Hn Hm. apply elem_of_ordinals_group_data.
    apply elem_of_ordinals_group_data in Hn as [k Hk]. exists k. lia.
Qed.

Lemma answers_le_ordinals (file : list answer_row) k :
  length (answers_of k file)
  ≤ length (ordinals (pivot_table (group_data_by_nam_email file))).
Proof.
  destruct (length (answers_of k file)) as [|m] eqn:Hm; [lia|].
  assert (m ∈ ordinals (pivot_table (group_data_by_nam_email file))) as Hin.
  { apply elem_of_ordinals_group_data. exists k. lia. }
  rewrite ordinals_group_data_seq in Hin. apply elem_of_seq in Hin. lia.
Qed.

(** X12. The answer columns of the pivot are numbered 0, 1, ..., K-1 without
    gap, where K is the largest number of answers a participant has: no
    participant has more than K answers, and when there is a column some
    participant on a line of the pivot has exactly K. The renamed header has
    the same K columns. *)
Theorem pivot_columns_count (file : list answer_row) :
  let df_responses := group_data_by_nam_email file in
  let K := length (ordinals (pivot_table df_responses)) in
  ordinals (pivot_table df_responses) = seq 0 K
  ∧ (∀ k, length (answers_of k file) ≤ K)
  ∧ (K ≠ 0 →
     ∃ k, k ∈ index (pivot_table df_responses)
          ∧ length (answers_of k file) = K)
  ∧ length (answer_columns (pivot_responses df_responses)) = K.
Proof.
  cbv zeta. split; [apply ordinals_group_data_seq|].
  split; [apply answers_le_ordinals|]. split.
  - intros HK.
    set (K := length (ordinals (pivot_table (group_data_by_nam_email file))))
      in *.
    assert (K - 1 ∈ ordinals (pivot_table (group_data_by_nam_email file)))
      as Hin.
    { rewrite ordinals_group_data_seq. apply elem_of_seq. fold K. lia. }
    apply elem_of_ordinals_group_data in Hin as [k Hk]. exists k.
    pose proof (answers_le_ordinals file k) as Hle. fold K in Hle.
    split; [|lia]. apply elem_of_index.
    destruct (lookup_lt_is_Some_2 (answers_of k file) 0) as [a Ha]; [lia|].
    exists 0, a. by rewrite first_valid_group_data.
  - unfold pivot_responses. simpl. by rewrite length_fmap.
Qed.

Lemma fmap_lookup_seq {A} (l : list A) K :
  length l ≤ K →
  (λ n, l !! n) <$> seq 0 K
  = (Some <$> l) ++ replicate (K - length l) None.
Proof.
  intros Hle. apply list_eq. intros i.
  rewrite list_lookup_fmap.
  destruct (decide (i < K)) as [Hi|Hi].
  - rewrite lookup_seq_lt by done. simpl.
    destruct (decide (i < length l)) as [Hl|Hl].
    + rewrite lookup_app_l by (by rewrite length_fmap).
      rewrite list_lookup_fmap.
      destruct (lookup_lt_is_Some_2 l i Hl) as [x ->]. done.
    + rewrite lookup_app_r by (rewrite length_fmap; lia).
      rewrite length_fmap, lookup_replicate_2 by lia.
      rewrite lookup_ge_None_2 by lia. done.
  - rewrite lookup_seq_ge by lia. simpl. symmetry.
    apply lookup_ge_None_2.
    rewrite length_app, length_fmap, length_replicate. lia.
Qed.

(** X13. Every line of the pivot has one cell per column: the answers of
    the participant, in the order of the input, then NaN up to the last
    column. There is no NaN before or between the answers, and no line
    without answer. *)
Theorem pivot_line_shape (file : list answer_row) p :
  let df_responses := group_data_by_nam_email file in
  let K := length (ordinals (pivot_table df_responses)) in
  p ∈ participants (pivot_responses df_responses) →
  reponses p
  = (Some <$> answers_of (participant p) file)
    ++ replicate (K - length (answers_of (participant p) file)) None
  ∧ length (reponses p) = K
  ∧ answers_of (participant p) file ≠ [].
Proof.
  cbv zeta. intros Hp. rewrite participants_pivot_responses in Hp.
  apply list_elem_of_fmap in Hp as (k & -> & Hk). cbn [reponses participant].
  assert ((λ n, first_valid (k, n)
                  (omap pivot_entry (group_data_by_nam_email file)))
            <$> ordinals (pivot_table (group_data_by_nam_email file))
          = (Some <$> answers_of k file)
            ++ replicate
                 (length (ordinals
                            (pivot_table (group_data_by_nam_email file)))
                  - length (answers_of k file)) None) as Hline.
  { rewrite <- fmap_lookup_seq by apply answers_le_ordinals.
    rewrite <- ordinals_group_data_seq. apply list_fmap_ext.
    intros _ n _. apply first_valid_group_data. }
  split; [done|]. split.
  - rewrite Hline, length_app, length_fmap, length_replicate.
    pose proof (answers_le_ordinals file k). lia.
  - apply elem_of_index in Hk as (n & a & Ha).
    rewrite first_valid_group_data in Ha. intros Hnil.
    by rewrite Hnil in Ha.
Qed.

Lemma pivot_line_shape_witness :
  ∃ p, p ∈ participants
             (pivot_responses
                (group_data_by_nam_email Demo.reponses_completes))
       ∧ participant p = ("Bob", "e2")
       ∧ reponses p
         = (Some <$> answers_of ("Bob", "e2") Demo.reponses_completes)
           ++ replicate
                (length (ordinals
                           (pivot_table
                              (group_data_by_nam_email
                                 Demo.reponses_completes)))
                 - length (answers_of ("Bob", "e2")
                                      Demo.reponses_completes)) None.
Proof.
  exists (mkParticipant ("Bob", "e2") [Some "Maybe"; None]).
  assert (mkParticipant ("Bob", "e2") [Some "Maybe"; None]
            ∈ participants
                (pivot_responses
                   (group_data_by_nam_email Demo.reponses_completes)))
    as Hp.
  { assert (participants
              (pivot_responses
                 (group_data_by_nam_email Demo.reponses_completes))
            = [mkParticipant ("Alice", "e1") [Some "Yes"; Some "No"];
               mkParticipant ("Bob", "e2") [Some "Maybe"; None]]) as ->
      by (by vm_compute).
    right. left. }
  split; [exact Hp|]. split; [reflexivity|].
  destruct (pivot_line_shape Demo.reponses_completes _ Hp) as (Hline & _).
  exact Hline.
Defined.

(** ** The header of the pivot *)

Lemma cumcount_num_Some seen df :
  Forall (λ r, is_Some (identity (answer r)) → is_Some (num_reponse r))
         (cumcount seen df).
Proof.
  revert seen. induction df as [|r df IH]; intros seen; [constructor|].
  simpl. destruct (identity r) as [k|] eqn:Hk; constructor; simpl; auto.
  rewrite Hk. by intros [? ?].
Qed.

Lemma label_inj n m :
  Named ("reponse_" +:+ pretty (n + 1))
  = Named ("reponse_" +:+ pretty (m + 1)) → n = m.
Proof.
  intros [= H]. apply (inj (String.app "")) in H.
  apply (inj pretty) in H. lia.
Qed.

(** X14. When every row that has an answer names its participant, the
    header of the pivoted table is reponse_1, reponse_2, ..., reponse_K: the
    labels count from 1, in column order, and no two columns have the same
    label. *)
Theorem pivot_header (file : list answer_row) :
  Forall (λ r, is_Some (reponses_des_participants r) → is_Some (identity r))
         file →
  let df_responses := group_data_by_nam_email file in
  let K := length (ordinals (pivot_table df_responses)) in
  answer_columns (pivot_responses df_responses)
  = (λ n, Named ("reponse_" +:+ pretty (n + 1))) <$> seq 0 K
  ∧ NoDup (answer_columns (pivot_responses df_responses)).
Proof.
  intros Hall. cbv zeta.
  assert (existsb (λ r, bool_decide (num_reponse r = None))
                  (group_data_by_nam_email file) = false) as Hint.
  { apply not_true_is_false. intros Hex.
    apply existsb_exists in Hex as (r & Hr & Hnone).
    apply bool_decide_eq_true in Hnone. apply list_elem_of_In in Hr.
    pose proof (cumcount_num_Some ∅
                  (filter (λ r, is_Some (reponses_des_participants r)) file))
      as Hnum.
    rewrite Forall_forall in Hnum.
    destruct (Hnum r Hr) as [n Hn]; [|congruence].
    assert (answer r ∈ answer <$> group_data_by_nam_email file) as Hin
      by (by apply list_elem_of_fmap_2).
    unfold group_data_by_nam_email in Hin. rewrite cumcount_answer in Hin.
    apply list_elem_of_filter in Hin as [Hans Hin].
    rewrite Forall_forall in Hall. by apply Hall. }
  assert (answer_columns (pivot_responses (group_data_by_nam_email file))
          = (λ n, Named ("reponse_" +:+ pretty (n + 1)))
              <$> seq 0 (length (ordinals
                                   (pivot_table
                                      (group_data_by_nam_email file)))))
    as Heq.
  { unfold pivot_responses. cbn [answer_columns]. rewrite Hint.
    by rewrite <- ordinals_group_data_seq. }
  split; [done|]. rewrite Heq.
  apply NoDup_fmap_2_strong; [|apply NoDup_seq].
  intros n m _ _. apply label_inj.
Qed.

Lemma pivot_header_witness :
  Forall (λ r, is_Some (reponses_des_participants r) → is_Some (identity r))
         Demo.reponses_completes
  ∧ answer_columns
      (pivot_responses (group_data_by_nam_email Demo.reponses_completes))
    = [Named "reponse_1"; Named "reponse_2"]
  ∧ NoDup (answer_columns
             (pivot_responses
                (group_data_by_nam_email Demo.reponses_completes))).
Proof.
  assert (Forall (λ r, is_Some (reponses_des_participants r)
                       → is_Some (identity r)) Demo.reponses_completes)
    as Hall.
  { repeat constructor; intros _; by eexists. }
  split; [exact Hall|]. split; [by vm_compute|].
  destruct (pivot_header Demo.reponses_completes Hall) as [_ Hnd].
  exact Hnd.
Defined.

(** ** The forward fill, column by column *)

Lemma fill_fill (above c : text) : fill above (fill above c) = fill above c.
Proof. unfold fill. destruct c; [done|]. by destruct above. Qed.

Lemma cell_of_filled c above r :
  cell_of c (mkAnswer
               (fill (nom_du_participant above) (nom_du_participant r))
               (fill (email above) (email r))
               (fill (reponses_des_participants above)
                     (reponses_des_participants r)))
  = fill (cell_of c above) (cell_of c r).
Proof. by destruct c. Qed.

Lemma ffill_keeps c above df i r x :
  df !! i = Some r → cell_of c r = Some x →
  ∃ r', ffill above df !! i = Some r' ∧ cell_of c r' = Some x.
Proof.
  revert above i. induction df as [|r0 df IH]; intros above i; [done|].
  destruct i as [|i]; simpl.
  - intros [= ->] Hx. eexists. split; [done|].
    rewrite cell_of_filled, Hx. done.
  - apply IH.
Qed.

Lemma ffill_blank_run_col c above df i :
  i < length df →
  (∀ m rm, m ≤ i → df !! m = Some rm → cell_of c rm = None) →
  ∃ r', ffill above df !! i = Some r' ∧ cell_of c r' = cell_of c above.
Proof.
  revert above i. induction df as [|r df IH]; intros above i Hi Hblank.
  { simpl in Hi. lia. }
  pose proof (Hblank 0 r ltac:(lia) eq_refl) as Hr.
  destruct i as [|i]; simpl.
  - eexists. split; [done|]. by rewrite cell_of_filled, Hr.
  - destruct (IH (mkAnswer
                    (fill (nom_du_participant above) (nom_du_participant r))
                    (fill (email above) (email r))
                    (fill (reponses_des_participants above)
                          (reponses_des_participants r))) i)
      as (r' & Hr' & Hcell).
    + simpl in Hi. lia.
    + intros m rm Hm Hrm. apply (Hblank (S m)); [lia|done].
    + exists r'. split; [done|]. by rewrite Hcell, cell_of_filled, Hr.
Qed.

Lemma ffill_nearest_col c above df i j rj a :
  j < i → i < length df →
  df !! j = Some rj → cell_of c rj = Some a →
  (∀ m rm, j < m ≤ i → df !! m = Some rm → cell_of c rm = None) →
  ∃ r', ffill above df !! i = Some r' ∧ cell_of c r' = Some a.
Proof.
  revert above i j. induction df as [|r df IH]; intros above i j Hji Hi Hj Ha Hb.
  { simpl in Hi. lia. }
  destruct i as [|i]; [lia|]. simpl in Hi |- *.
  destruct j as [|j].
  - simpl in Hj. injection Hj as ->.
    destruct (ffill_blank_run_col c
                (mkAnswer
                   (fill (nom_du_participant above) (nom_du_participant rj))
                   (fill (email above) (email rj))
                   (fill (reponses_des_participants above)
                         (reponses_des_participants rj))) df i)
      as (r' & Hr' & Hcell).
    + lia.
    + intros m rm Hm Hrm. apply (Hb (S m)); [lia|done].
    + exists r'. split; [done|]. by rewrite Hcell, cell_of_filled, Ha.
  - apply (IH _ i j); [lia|lia|done|done|].
    intros m rm Hm Hrm. apply (Hb (S m)); [lia|done].
Qed.

Lemma ffill_idemp above df : ffill above (ffill above df) = ffill above df.
Proof.
  revert above. induction df as [|r df IH]; intros above; [done|].
  simpl. rewrite !fill_fill. f_equal. apply IH.
Qed.

(** X15. [load_and_fill_na_data] fills each of the columns on its own. It
    keeps the number of rows and never changes a cell that holds a value; a
    blank cell below a cell of the same column that holds a value receives
    the value of the nearest such cell above it, so a continuation row
    receives the name and the e-mail of the nearest rows above that have
    them. Filling a filled table changes nothing. *)
Theorem forward_fill_every_column (file : list answer_row) :
  let df_filled := load_and_fill_na_data file in
  length df_filled = length file
  ∧ (∀ c i r x, file !! i = Some r → cell_of c r = Some x →
       ∃ r', df_filled !! i = Some r' ∧ cell_of c r' = Some x)
  ∧ (∀ c i j rj a,
       j < i → i < length file →
       file !! j = Some rj → cell_of c rj = Some a →
       (∀ m rm, j < m ≤ i → file !! m = Some rm → cell_of c rm = None) →
       ∃ r', df_filled !! i = Some r' ∧ cell_of c r' = Some a)
  ∧ load_and_fill_na_data df_filled = df_filled.
Proof.
  cbv zeta. unfold load_and_fill_na_data.
  split; [apply length_ffill|]. split.
  { intros c i r x. apply ffill_keeps. }
  split.
  { intros c i j rj a. apply ffill_nearest_col. }
  apply ffill_idemp.
Qed.

(** ** The pivot of an export *)

Lemma identity_filled above r :
  (is_Some (nom_du_participant r) ↔ is_Some (email r)) →
  identity (mkAnswer
              (fill (nom_du_participant above) (nom_du_participant r))
              (fill (email above) (email r))
              (fill (reponses_des_participants above)
                    (reponses_des_participants r)))
  = match identity r with Some k => Some k | None => identity above end.
Proof.
  unfold identity. simpl. intros Hpair.
  destruct (nom_du_participant r) as [n|], (email r) as [e|]; simpl.
  - done.
  - destruct (proj1 Hpair) as [? ?]; [by eexists|done].
  - destruct (proj2 Hpair) as [? ?]; [by eexists|done].
  - done.
Qed.

Lemma carried_ffill above (file : list answer_row) :
  Forall export_row file →
  (λ r, (identity r, reponses_des_participants r)) <$> ffill above file
  = carried (identity above) file.
Proof.
  intros Hall. revert above.
  induction Hall as [|r file [[a Ha] Hpair] _ IH]; intros above; [done|].
  cbn [ffill carried]. rewrite fmap_cons, IH, identity_filled by done.
  cbn [reponses_des_participants]. by rewrite Ha.
Qed.

Lemma answers_of_omap k (df : list answer_row) :
  answers_of k df
  = omap (λ e, if decide (e.1 = Some k) then e.2 else None)
         ((λ r, (identity r, reponses_des_participants r)) <$> df).
Proof.
  unfold answers_of, rows_of. induction df as [|r df IH]; [done|].
  rewrite filter_cons, fmap_cons, omap_cons. simpl.
  destruct (decide (identity r = Some k)); [|done].
  rewrite omap_cons. by rewrite IH.
Qed.

(** X16. On an export (every row holds an answer and either names its
    participant with name and e-mail or leaves both blank),
    [pivot_table_and_save_to_excel] gives each participant one line that
    holds, in order, the answers of the rows that name the participant and of
    the blank rows that follow them, wherever in the file these rows are; a
    participant has a line exactly when an answer is carried to them. *)
Theorem export_pivoted_by_participant (file : list answer_row) :
  Forall export_row file →
  let df_pivot := pivot_table_and_save_to_excel file in
  (∀ p, p ∈ participants df_pivot →
     filled_cells p = carried_answers (participant p) file)
  ∧ (∀ k, k ∈ participant <$> participants df_pivot
          ↔ ∃ a, (Some k, Some a) ∈ carried None file)
  ∧ NoDup (participant <$> participants df_pivot).
Proof.
  intros Hall. cbv zeta. unfold pivot_table_and_save_to_excel.
  assert (∀ k, answers_of k (load_and_fill_na_data file)
               = carried_answers k file) as Hans.
  { intros k. rewrite answers_of_omap. unfold load_and_fill_na_data.
    by rewrite carried_ffill. }
  assert (participant
            <$> participants
                  (pivot_responses
                     (group_data_by_nam_email (load_and_fill_na_data file)))
          = index (pivot_table
                     (group_data_by_nam_email (load_and_fill_na_data file))))
    as Hidx.
  { rewrite participants_pivot_responses, <- list_fmap_compose.
    apply list_fmap_id. }
  split.
  { intros p Hp. rewrite participants_pivot_responses in Hp.
    apply list_elem_of_fmap in Hp as (k & -> & _).
    unfold filled_cells. cbn [reponses participant].
    rewrite <- Hans. apply filled_cells_line. }
  rewrite Hidx. split; [|apply NoDup_index].
  intros k. rewrite elem_of_index. setoid_rewrite first_valid_group_data.
  setoid_rewrite Hans. unfold carried_answers. split.
  - intros (n & a & Ha). apply list_elem_of_lookup_2 in Ha.
    apply list_elem_of_omap in Ha as ([cur b] & Hin & Hsel). simpl in Hsel.
    case_decide; [|done]. subst. by exists a.
  - intros (a & Hin).
    assert (a ∈ omap (λ e : option (string * string) * text,
                        if decide (e.1 = Some k) then e.2 else None)
                     (carried None file)) as Hel.
    { apply list_elem_of_omap. exists (Some k, Some a). split; [done|].
      simpl. by rewrite decide_True. }
    apply list_elem_of_lookup_1 in Hel as [n Hn]. by exists n, a.
Qed.

Lemma export_pivoted_by_participant_witness :
  Forall export_row Cas2.export
  ∧ participants (pivot_table_and_save_to_excel Cas2.export)
    = [mkParticipant ("Alice", "alice@rlq.test")
         [Some "Yes"; Some "No"; Some "Later"];
       mkParticipant ("Bob", "bob@rlq.test") [Some "Maybe"; None; None]]
  ∧ ∀ p, p ∈ participants (pivot_table_and_save_to_excel Cas2.export) →
      filled_cells p = carried_answers (participant p) Cas2.export.
Proof.
  assert (Forall export_row Cas2.export) as Hall.
  { repeat constructor; try (by eexists); simpl;
      try (intros _; by eexists); by intros [? ?]. }
  split; [exact Hall|]. split; [by vm_compute|].
  destruct (export_pivoted_by_participant Cas2.export Hall) as [Hcells _].
  exact Hcells.
Defined.

(** ** The order of the lines *)

#[local] Instance identity_le_total : Total identity_le.
Proof.
  intros a b. unfold identity_le.
  destruct (decide (a.1 = b.1)) as [Heq|Hne].
  - rewrite decide_True by done. apply (total String.le).
  - rewrite decide_False by done. apply (total String.le).
Qed.

#[local] Instance identity_le_trans : Transitive identity_le.
Proof.
  intros a b c. unfold identity_le.
  destruct (decide (a.1 = b.1)) as [Hab|Hab],
           (decide (b.1 = c.1)) as [Hbc|Hbc],
           (decide (a.1 = c.1)) as [Hac|Hac];
    try congruence; intros H1 H2;
    first [ by (etrans; [exact H1|exact H2])
          | by (rewrite Hab; exact H2)
          | by (rewrite <- Hbc; exact H1)
          | idtac ].
  destruct Hab. apply (anti_symm String.le); [exact H1|].
  rewrite Hac. exact H2.
Qed.

#[local] Instance identity_le_anti_symm : AntiSymm (=) identity_le.
Proof.
  intros [n e] [n' e']. unfold identity_le. simpl.
  destruct (decide (n = n')) as [->|Hne].
  - rewrite decide_True by done. intros H1 H2. f_equal.
    by apply (anti_symm String.le).
  - rewrite decide_False by done. intros H1 H2. destruct Hne.
    by apply (anti_symm String.le).
Qed.

Lemma answers_of_Permutation k (file1 file2 : list answer_row) :
  file1 ≡ₚ file2 → answers_of k file1 ≡ₚ answers_of k file2.
Proof.
  intros Hperm. unfold answers_of, rows_of.
  apply omap_Permutation. by rewrite Hperm.
Qed.

(** X17. The lines of the pivot are the participants who have an answer in
    the input, in ascending order of name and, for one name, of e-mail, each
    once. So the order of the lines does not depend on the order of the
    rows: two inputs with the same rows, in whatever order, give the same
    participants line for line. *)
Theorem pivot_lines_order (file1 file2 : list answer_row) :
  file1 ≡ₚ file2 →
  let lines file :=
    participant
      <$> participants (pivot_responses (group_data_by_nam_email file)) in
  lines file1 = lines file2
  ∧ (∀ k, k ∈ lines file1 ↔ answers_of k file1 ≠ [])
  ∧ Sorted identity_le (lines file1)
  ∧ NoDup (lines file1).
Proof.
  intros Hperm. cbv zeta.
  assert (∀ file,
            participant
              <$> participants (pivot_responses (group_data_by_nam_email file))
            = index (pivot_table (group_data_by_nam_email file))) as Hidx.
  { intros file. rewrite participants_pivot_responses, <- list_fmap_compose.
    apply list_fmap_id. }
  assert (∀ file,
            Sorted identity_le
              (index (pivot_table (group_data_by_nam_email file)))) as Hsorted.
  { intros file. unfold pivot_table. simpl. apply (Sorted_merge_sort _). }
  split; [|split; [apply participant_on_line|]].
  - rewrite !Hidx. apply (Sorted_unique identity_le); [apply Hsorted..|].
    apply NoDup_Permutation; [apply NoDup_index..|].
    intros k. rewrite <- !Hidx, !participant_on_line.
    pose proof (answers_of_Permutation k _ _ Hperm) as Hk.
    split; intros Hne Hnil; apply Hne.
    + rewrite Hnil in Hk. by apply Permutation_nil_r in Hk.
    + rewrite Hnil in Hk. by apply Permutation_nil_l in Hk.
  - rewrite Hidx. split; [apply Hsorted|apply NoDup_index].
Qed.

Lemma pivot_lines_order_witness :
  Cas2.export ≡ₚ reverse Cas2.export
  ∧ participant
      <$> participants
            (pivot_responses (group_data_by_nam_email (reverse Cas2.export)))
    = [("Alice", "alice@rlq.test"); ("Bob", "bob@rlq.test")]
  ∧ participant
      <$> participants
            (pivot_responses (group_data_by_nam_email Cas2.export))
    = [("Alice", "alice@rlq.test"); ("Bob", "bob@rlq.test")].
Proof.
  assert (Cas2.export ≡ₚ reverse Cas2.export) as Hperm
    by (symmetry; apply reverse_Permutation).
  split; [exact Hperm|]. split; [by vm_compute|].
  destruct (pivot_lines_order Cas2.export (reverse Cas2.export) Hperm)
    as [Heq _].
  rewrite Heq. by vm_compute.
Defined.

(** * Properties of the preparation script *)

(** ** The input file *)

Lemma elem_of_files_in_dir {C} (dir : gmap string (node C)) f :
  f ∈ files_in_dir dir
  ↔ ∃ c, dir !! f = Some (RegularFile c) ∧ is_excel_name f = true.
Proof.
  unfold files_in_dir. rewrite list_elem_of_fmap. split.
  - intros ([f' n] & -> & Hin). apply elem_of_map_to_list in Hin.
    apply map_lookup_filter_Some in Hin as [Hf [Hn He]]. simpl in *.
    destruct n as [c|]; [|done]. by exists c.
  - intros (c & Hf & He). exists (f, RegularFile c). split; [done|].
    apply elem_of_map_to_list, map_lookup_filter_Some. by split.
Qed.

Lemma NoDup_files_in_dir {C} (dir : gmap string (node C)) :
  NoDup (files_in_dir dir).
Proof. apply NoDup_fst_map_to_list. Qed.

Lemma list_singleton_eq {A} (l : list A) x :
  NoDup l → (∀ y, y ∈ l ↔ y = x) → l = [x].
Proof.
  intros Hnd Hl. destruct l as [|y l].
  { pose proof (proj2 (Hl x) eq_refl) as Hx. by apply elem_of_nil in Hx. }
  assert (y = x) as -> by (apply Hl; left).
  destruct l as [|z l]; [done|].
  assert (z = x) as -> by (apply Hl; right; left).
  apply NoDup_cons in Hnd as [Hx _]. destruct Hx. left.
Qed.





(** ** The ticket column *)

Lemma ticket_kind_cases s :
  ticket_kind s ∈ ["Visiteur"; "Benevole"; "Commanditaire"; "Autre"].
Proof.
  unfold ticket_kind.
  destruct (contains "visiteur" s); [set_solver|].
  destruct (contains "bénévole" s || contains "benevole" s); [set_solver|].
  destruct (contains "commanditaire" s); set_solver.
Qed.

Lemma has_column_set_column c f df :
  has_column c df = true → columns (set_column c f df) = columns df.
Proof. intros Hc. unfold set_column. simpl. by rewrite Hc. Qed.

Lemma rows_set_column_lookup c f df i :
  rows (set_column c f df) !! i
  = (λ r : row, <[c := f r]> r) <$> rows df !! i.
Proof. unfold set_column. simpl. apply list_lookup_fmap. Qed.

Lemma set_column_twice c f g df :
  has_column c df = true →
  (∀ r : row, g (<[c := f r]> r) = f r) →
  set_column c g (set_column c f df) = set_column c f df.
Proof.
  intros Hc Hg. unfold set_column at 1.
  assert (has_column c (set_column c f df) = true) as ->.
  { unfold has_column in *. by rewrite has_column_set_column. }
  unfold set_column. cbn [rows columns]. f_equal.
  rewrite <- list_fmap_compose. apply list_fmap_ext. intros _ r _.
  cbn. by rewrite Hg, insert_insert_eq.
Qed.

Section normalize.
Variable lower : string → string.

(** X20. [normalize_ticket_column] leaves a table without the ticket column
    as it is, with a warning. Otherwise it keeps the columns, the number and
    the order of the rows and every cell of the other columns, and gives
    every row one of the four labels 'Visiteur', 'Benevole', 'Commanditaire'
    and 'Autre': 'Visiteur' as soon as the lowered text of the cell mentions
    visiteur, whatever else it mentions. *)
Theorem normalized_ticket_labels (df : DataFrame) :
  (has_column colonne_role df = false →
   normalize_ticket_column lower df
   = ([(INFO, NormalizingTickets); (WARNING, TicketColumnMissing)], df))
  ∧ (has_column colonne_role df = true →
     let df' := (normalize_ticket_column lower df).2 in
     columns df' = columns df
     ∧ length (rows df') = length (rows df)
     ∧ (∀ i r, rows df !! i = Some r →
          ∃ r' kind,
            rows df' !! i = Some r'
            ∧ r' !! colonne_role = Some (Text kind)
            ∧ kind ∈ ["Visiteur"; "Benevole"; "Commanditaire"; "Autre"]
            ∧ (contains "visiteur" (lower (astype_str (r !! colonne_role)))
               = true → kind = "Visiteur")
            ∧ ∀ c, c ≠ colonne_role → r' !! c = r !! c)).
Proof.
  unfold normalize_ticket_column. split; intros Hc; rewrite Hc; simpl.
  { done. }
  split; [by rewrite Hc|]. split; [by rewrite length_fmap|].
  intros i r Hr.
  exists (<[colonne_role :=
              Text (ticket_kind (lower (astype_str (r !! colonne_role))))]> r),
         (ticket_kind (lower (astype_str (r !! colonne_role)))).
  split; [by rewrite list_lookup_fmap, Hr|].
  split; [by rewrite lookup_insert_eq|].
  split; [apply ticket_kind_cases|]. split.
  - intros Hv. unfold ticket_kind. by rewrite Hv.
  - intros c Hne. by rewrite lookup_insert_ne.
Qed.

Hypothesis lower_Visiteur : lower "Visiteur" = "visiteur".
Hypothesis lower_Benevole : lower "Benevole" = "benevole".
Hypothesis lower_Commanditaire : lower "Commanditaire" = "commanditaire".
Hypothesis lower_Autre : lower "Autre" = "autre".

Lemma ticket_kind_label s :
  ticket_kind (lower (ticket_kind s)) = ticket_kind s.
Proof.
  pose proof (ticket_kind_cases s) as Hs.
  repeat (apply elem_of_cons in Hs as [->|Hs]);
    [| | | |by apply elem_of_nil in Hs];
    rewrite ?lower_Visiteur, ?lower_Benevole, ?lower_Commanditaire,
      ?lower_Autre; reflexivity.
Qed.

(** X21. Normalising a normalised table changes nothing: with a [lower]
    that lowers the four labels as Python does, a second
    [normalize_ticket_column] returns the table the first one returned. *)
Theorem normalize_ticket_column_twice (df : DataFrame) :
  (normalize_ticket_column lower (normalize_ticket_column lower df).2).2
  = (normalize_ticket_column lower df).2.
Proof.
  unfold normalize_ticket_column.
  destruct (has_column colonne_role df) eqn:Hc; cbn [negb snd];
    [|by rewrite Hc].
  assert (has_column colonne_role
            (set_column colonne_role
               (λ r : row,
                  Text (ticket_kind
                          (lower (astype_str (r !! colonne_role))))) df)
          = true) as ->.
  { unfold has_column in *. by rewrite has_column_set_column. }
  cbn [negb snd]. apply set_column_twice; [done|].
  intros r. rewrite lookup_insert_eq. cbn [astype_str].
  by rewrite ticket_kind_label.
Qed.
End normalize.

Lemma normalize_ticket_column_twice_witness :
  Entree.lower "Visiteur" = "visiteur"
  ∧ Entree.lower "Benevole" = "benevole"
  ∧ Entree.lower "Commanditaire" = "commanditaire"
  ∧ Entree.lower "Autre" = "autre"
  ∧ (normalize_ticket_column Entree.lower
       (normalize_ticket_column Entree.lower Entree.df_cleaned).2).2
    = (normalize_ticket_column Entree.lower Entree.df_cleaned).2.
Proof.
  split; [reflexivity|]. split; [reflexivity|]. split; [reflexivity|].
  split; [reflexivity|].
  apply (normalize_ticket_column_twice Entree.lower); reflexivity.
Defined.

(** ** The status column *)

Lemma replace_status_not_key s :
  replace_status s ≠ "Présent" ∧ replace_status s ≠ "Inscrit".
Proof.
  unfold replace_status.
  destruct (decide (s = "Présent")); [done|].
  destruct (decide (s = "Inscrit")); done.
Qed.

Lemma replace_status_present s :
  replace_status s = "present" ↔ s = "Présent" ∨ s = "present".
Proof.
  unfold replace_status.
  destruct (decide (s = "Présent")) as [->|?]; [by split; auto|].
  destruct (decide (s = "Inscrit")) as [->|?]; [by split; [|intros [|]]|].
  split; [by right|]. by intros [|].
Qed.

(** X22. [clean_status_column] raises [KeyError] on a table without the
    status column. Otherwise it keeps the columns and the rows and gives
    every row a status text, never blank and never 'Présent' or 'Inscrit';
    the status is 'present' exactly when the stripped text of the cell is
    'Présent' or 'present', and a blank cell is read as 'absent'. *)
Theorem status_cleaned (strip : string → string) (df : DataFrame) :
  (has_column colonne_status df = false →
   clean_status_column strip df
   = ([(INFO, CleaningStatus)], KeyError colonne_status))
  ∧ (has_column colonne_status df = true →
     ∃ log df',
       clean_status_column strip df = (log, Ok df')
       ∧ columns df' = columns df
       ∧ length (rows df') = length (rows df)
       ∧ ∀ i r, rows df !! i = Some r →
           ∃ r' s,
             rows df' !! i = Some r'
             ∧ r' !! colonne_status = Some (Text s)
             ∧ s ≠ "Présent" ∧ s ≠ "Inscrit"
             ∧ (s = "present"
                ↔ strip (default "absent"
                           (astype_str ∘ Some <$> r !! colonne_status))
                  ∈ ["Présent"; "present"])
             ∧ (r !! colonne_status = None →
                s = replace_status (strip "absent"))
             ∧ ∀ c, c ≠ colonne_status → r' !! c = r !! c).
Proof.
  unfold clean_status_column. split; intros Hc; rewrite Hc; cbn [negb].
  { done. }
  eexists _, _. split; [done|].
  split; [by apply has_column_set_column|].
  split; [unfold set_column; cbn [rows]; by rewrite length_fmap|].
  intros i r Hr.
  exists (<[colonne_status := Text (cleaned_status strip r)]> r),
         (cleaned_status strip r).
  split; [by rewrite rows_set_column_lookup, Hr|].
  split; [by rewrite lookup_insert_eq|].
  assert (cleaned_status strip r
          = replace_status
              (strip (default "absent"
                        (astype_str ∘ Some <$> r !! colonne_status))))
    as Hs.
  { unfold cleaned_status. by destruct (r !! colonne_status). }
  split; [rewrite Hs; apply replace_status_not_key|].
  split; [rewrite Hs; apply replace_status_not_key|].
  split.
  { rewrite Hs, replace_status_present. set_solver. }
  split.
  { intros Hnone. unfold cleaned_status. by rewrite Hnone. }
  intros c Hne. by rewrite lookup_insert_ne.
Qed.

(** ** The files of the draw *)

Lemma present_with_exclusive k1 k2 (r : row) :
  present_with k1 r = true → present_with k2 r = true → k1 = k2.
Proof.
  unfold present_with. rewrite !andb_true_iff, !bool_decide_eq_true.
  intros [H1 _] [H2 _]. congruence.
Qed.

(** X23. On a table that has the ticket and status columns,
    [filter_and_save_participants] writes the table as the cleaned file and
    three role files: each holds, in the order of the table, the rows with
    that role whose status is 'present'. No row is in two role files; a row
    is in one of them exactly when its status is 'present' and its role
    'Commanditaire', 'Benevole' or 'Visiteur'; the ledger is not touched. *)
Theorem role_files_split_present (df : DataFrame) (out : OutputFiles) :
  has_column colonne_role df = true →
  has_column colonne_status df = true →
  let after := (filter_and_save_participants (Some df) out).2 in
  (filter_and_save_participants (Some df) out).1.2 = Ok tt
  ∧ event_registration_cleaned after = Some df
  ∧ event_registration_sponsors after
    = Some (select (present_with "Commanditaire") df)
  ∧ event_registration_benevoles (draw_files after)
    = Some (select (present_with "Benevole") df)
  ∧ event_registration_visiteurs (draw_files after)
    = Some (select (present_with "Visiteur") df)
  ∧ gagnants_combines (draw_files after)
    = gagnants_combines (draw_files out)
  ∧ (∀ k1 k2 (r : row),
       r ∈ rows (select (present_with k1) df) →
       r ∈ rows (select (present_with k2) df) → k1 = k2)
  ∧ (∀ r : row,
       (∃ k, k ∈ ["Commanditaire"; "Benevole"; "Visiteur"]
             ∧ r ∈ rows (select (present_with k) df))
       ↔ r ∈ rows df
         ∧ r !! colonne_status = Some (Text "present")
         ∧ ∃ k, k ∈ ["Commanditaire"; "Benevole"; "Visiteur"]
                ∧ r !! colonne_role = Some (Text k)).
Proof.
  intros Hr Hs. cbv zeta. unfold filter_and_save_participants.
  rewrite Hr, Hs. cbn [negb role_step fst snd event_registration_cleaned
    event_registration_sponsors draw_files event_registration_benevoles
    event_registration_visiteurs gagnants_combines].
  repeat (split; [done|]). split.
  - intros k1 k2 r H1 H2. apply elem_of_select in H1 as [_ H1].
    apply elem_of_select in H2 as [_ H2].
    by eapply present_with_exclusive.
  - intros r. split.
    + intros (k & Hk & Hin). apply elem_of_select in Hin as [Hin Hp].
      unfold present_with in Hp.
      apply andb_true_iff in Hp as [Hp1 Hp2].
      apply bool_decide_eq_true in Hp1, Hp2. eauto 6.
    + intros (Hin & Hst & k & Hk & Hrole). exists k. split; [done|].
      apply elem_of_select. split; [done|]. unfold present_with.
      apply andb_true_iff. by rewrite !bool_decide_eq_true.
Qed.

Lemma role_files_split_present_witness :
  ∃ df,
    (clean_status_column Entree.strip
       (normalize_ticket_column Entree.lower Entree.df_cleaned).2).2 = Ok df
    ∧ has_column colonne_role df = true
    ∧ has_column colonne_status df = true
    ∧ event_registration_visiteurs
        (draw_files (filter_and_save_participants (Some df) Entree.vide).2)
      = Some (select (present_with "Visiteur") df)
    ∧ len (select (present_with "Visiteur") df) = 1.
Proof.
  destruct (clean_status_column Entree.strip
              (normalize_ticket_column Entree.lower Entree.df_cleaned).2).2
    as [df|c] eqn:Hdf; [|by vm_compute in Hdf].
  assert (has_column colonne_role df = true) as Hr
    by (by vm_compute in Hdf; injection Hdf as <-).
  assert (has_column colonne_status df = true) as Hs
    by (by vm_compute in Hdf; injection Hdf as <-).
  exists df. split; [reflexivity|]. split; [exact Hr|]. split; [exact Hs|].
  destruct (role_files_split_present df Entree.vide Hr Hs)
    as (_ & _ & _ & _ & Hv & _).
  split; [exact Hv|].
  vm_compute in Hdf. injection Hdf as <-. reflexivity.
Defined.

(** ** From the cleaned table to the draw *)

Lemma columns_normalize lower df :
  columns (normalize_ticket_column lower df).2 = columns df.
Proof.
  unfold normalize_ticket_column.
  destruct (has_column colonne_role df) eqn:Hc; cbn [negb snd]; [|done].
  by apply has_column_set_column.
Qed.

Lemma has_column_normalize lower c df :
  has_column c (normalize_ticket_column lower df).2 = has_column c df.
Proof. unfold has_column. by rewrite columns_normalize. Qed.

(** The table [process_and_save] hands to [filter_and_save_participants]. *)
Lemma process_and_save_unfold lower strip df_cleaned out :
  has_column colonne_status df_cleaned = true →
  ∃ t df_processed,
    process_and_save lower strip df_cleaned out
    = (t ++ (filter_and_save_participants (Some df_processed) out).1.1,
       (filter_and_save_participants (Some df_processed) out).1.2,
       (filter_and_save_participants (Some df_processed) out).2)
    ∧ columns df_processed = columns df_cleaned
    ∧ (has_column colonne_role df_cleaned = false →
       (WARNING, TicketColumnMissing) ∈ t).
Proof.
  intros Hs. unfold process_and_save.
  pose proof (has_column_normalize lower colonne_status df_cleaned) as Hs'.
  rewrite Hs in Hs'.
  pose proof (columns_normalize lower df_cleaned) as Hcols.
  destruct (normalize_ticket_column lower df_cleaned) as [t1 df_n] eqn:Hn.
  cbn [snd] in Hs', Hcols.
  unfold clean_status_column. rewrite Hs'. cbn [negb].
  set (df_p := set_column colonne_status _ df_n).
  set (t2 := [(INFO, CleaningStatus); _]).
  destruct (filter_and_save_participants (Some df_p) out)
    as [[t3 r] out'] eqn:Hf.
  exists (t1 ++ t2), df_p. rewrite Hf. cbn [fst snd].
  split; [by rewrite (assoc_L (++))|].
  split.
  { subst df_p. rewrite has_column_set_column; [exact Hcols|exact Hs']. }
  intros Hr. unfold normalize_ticket_column in Hn. rewrite Hr in Hn.
  cbn [negb] in Hn. injection Hn as <- _.
  apply elem_of_app. left. apply list_elem_of_In. simpl. tauto.
Qed.

(** X24. When the cleaned table lacks the ticket or the status column,
    [process_and_save] ends in [KeyError] and writes no file of the draw. A
    missing status column raises first, before anything is written. A
    missing ticket column alone only gets a warning from
    [normalize_ticket_column]; the run goes on, writes the cleaned file and
    then raises in [filter_and_save_participants], the role files being left
    as they were. *)
Theorem process_missing_column lower strip df_cleaned out :
  has_column colonne_role df_cleaned = false
  ∨ has_column colonne_status df_cleaned = false →
  let run := process_and_save lower strip df_cleaned out in
  draw_files run.2 = draw_files out
  ∧ event_registration_sponsors run.2 = event_registration_sponsors out
  ∧ (has_column colonne_status df_cleaned = false →
     run.1.2 = KeyError colonne_status ∧ run.2 = out)
  ∧ (has_column colonne_status df_cleaned = true →
     run.1.2 = KeyError colonne_role
     ∧ (WARNING, TicketColumnMissing) ∈ run.1.1
     ∧ ∃ df_processed,
         event_registration_cleaned run.2 = Some df_processed
         ∧ columns df_processed = columns df_cleaned).
Proof.
  intros Hmiss. cbv zeta.
  destruct (has_column colonne_status df_cleaned) eqn:Hs.
  - destruct Hmiss as [Hr|?]; [|done].
    destruct (process_and_save_unfold lower strip df_cleaned out Hs)
      as (t & df_p & -> & Hcols & Hwarn).
    assert (has_column colonne_role df_p = false) as Hr'
      by (unfold has_column in *; by rewrite Hcols).
    unfold filter_and_save_participants. rewrite Hr'. cbn.
    split; [done|]. split; [done|]. split; [done|]. intros _.
    split; [done|]. split; [|by exists df_p].
    apply elem_of_app. left. by apply Hwarn.
  - unfold process_and_save.
    pose proof (has_column_normalize lower colonne_status df_cleaned) as Hs'.
    rewrite Hs in Hs'.
    destruct (normalize_ticket_column lower df_cleaned) as [t1 df_n].
    cbn [snd] in Hs'. unfold clean_status_column. rewrite Hs'. cbn.
    done.
Qed.

Lemma process_missing_column_witness :
  let df := mkDataFrame [colonne_nom; colonne_status]
              [{[ colonne_nom := Text "Alice";
                  colonne_status := Text "Présent" ]}] in
  (has_column colonne_role df = false
   ∨ has_column colonne_status df = false)
  ∧ (process_and_save Entree.lower Entree.strip df Entree.vide).1.2
    = KeyError colonne_role
  ∧ draw_files (process_and_save Entree.lower Entree.strip df Entree.vide).2
    = draw_files Entree.vide.
Proof.
  cbv zeta.
  assert (has_column colonne_role
            (mkDataFrame [colonne_nom; colonne_status]
               [{[ colonne_nom := Text "Alice";
                   colonne_status := Text "Présent" ]}]) = false
          ∨ has_column colonne_status
              (mkDataFrame [colonne_nom; colonne_status]
                 [{[ colonne_nom := Text "Alice";
                     colonne_status := Text "Présent" ]}]) = false) as Hm
    by (left; reflexivity).
  split; [exact Hm|].
  destruct (process_missing_column Entree.lower Entree.strip _ Entree.vide Hm)
    as (Hd & _ & _ & Hrole).
  split; [|exact Hd].
  destruct (Hrole eq_refl) as [He _]. exact He.
Defined.

Lemma process_and_save_ok lower strip df_cleaned out :
  has_column colonne_role df_cleaned = true →
  has_column colonne_status df_cleaned = true →
  ∃ df_processed,
    (process_and_save lower strip df_cleaned out).1.2 = Ok tt
    ∧ (process_and_save lower strip df_cleaned out).2
      = mkOutputFiles (Some df_processed)
          (Some (select (present_with "Commanditaire") df_processed))
          (mkFiles (Some (select (present_with "Visiteur") df_processed))
                   (Some (select (present_with "Benevole") df_processed))
                   (gagnants_combines (draw_files out))).
Proof.
  intros Hr Hs.
  destruct (process_and_save_unfold lower strip df_cleaned out Hs)
    as (t & df_p & -> & Hcols & _).
  assert (has_column colonne_role df_p = true) as Hr'
    by (unfold has_column in *; by rewrite Hcols).
  assert (has_column colonne_status df_p = true) as Hs'
    by (unfold has_column in *; by rewrite Hcols).
  exists df_p. unfold filter_and_save_participants. rewrite Hr', Hs'.
  done.
Qed.

(** X25. After [process_and_save] on a table that has the ticket and status
    columns, every candidate the draw script loads from the files it wrote
    has status 'present' and role 'Visiteur' or 'Benevole': no sponsor, no
    other role, nobody absent. So every winner any later draw produces from
    these files is a present visitor or a present volunteer. The preparation
    does not touch the ledger. *)
Theorem prepared_candidates_present lower strip df_cleaned out :
  has_column colonne_role df_cleaned = true →
  has_column colonne_status df_cleaned = true →
  let run := process_and_save lower strip df_cleaned out in
  let fs := draw_files run.2 in
  run.1.2 = Ok tt
  ∧ gagnants_combines fs = gagnants_combines (draw_files out)
  ∧ (∀ c : row, c ∈ rows (candidates fs) →
       c !! colonne_status = Some (Text "present")
       ∧ (c !! colonne_role = Some (Text "Visiteur")
          ∨ c !! colonne_role = Some (Text "Benevole")))
  ∧ (∀ typed seed now nouveaux (w : row),
       ending (main fs typed seed now) = Drawn nouveaux →
       w ∈ rows nouveaux →
       w !! colonne_status = Some (Text "present")
       ∧ (w !! colonne_role = Some (Text "Visiteur")
          ∨ w !! colonne_role = Some (Text "Benevole"))).
Proof.
  intros Hr Hs. cbv zeta.
  destruct (process_and_save_ok lower strip df_cleaned out Hr Hs)
    as (df_p & -> & ->).
  cbn [draw_files gagnants_combines event_registration_cleaned].
  split; [done|]. split; [done|].
  set (fs := mkFiles _ _ _).
  assert (rows (candidates fs)
          = rows (select (present_with "Visiteur") df_p)
            ++ rows (select (present_with "Benevole") df_p)) as Hrows
    by apply rows_candidates.
  assert (∀ c : row, c ∈ rows (candidates fs) →
            c !! colonne_status = Some (Text "present")
            ∧ (c !! colonne_role = Some (Text "Visiteur")
               ∨ c !! colonne_role = Some (Text "Benevole"))) as Hcand.
  { intros c Hc. rewrite Hrows in Hc.
    apply elem_of_app in Hc as [Hc|Hc];
      apply elem_of_select in Hc as [_ Hc]; unfold present_with in Hc;
      apply andb_true_iff in Hc as [H1 H2];
      apply bool_decide_eq_true in H1, H2; auto. }
  split; [done|].
  intros typed seed now nouveaux w Hend Hw.
  destruct (main_drawn _ _ _ _ _ Hend)
    as (n & pool & -> & Hpos & Hle & Hpool & -> & _).
  cbn [rows assign sample] in Hw.
  apply list_elem_of_fmap in Hw as (c & -> & Hc).
  assert (c ∈ rows pool) as Hin.
  { eapply elem_of_submseteq; [exact Hc|apply sample_rows_submseteq]. }
  apply (eligible_pool_elem _ _ c Hpool) in Hin as (Hin & _).
  rewrite !lookup_insert_ne by done. by apply Hcand.
Qed.

Lemma prepared_candidates_present_witness :
  has_column colonne_role Entree.df_cleaned = true
  ∧ has_column colonne_status Entree.df_cleaned = true
  ∧ (process_and_save Entree.lower Entree.strip Entree.df_cleaned
       Entree.vide).1.2 = Ok tt
  ∧ (λ r : row, r !! colonne_nom)
      <$> rows (candidates
                  (draw_files
                     (process_and_save Entree.lower Entree.strip
                        Entree.df_cleaned Entree.vide).2))
    = [Some (Text "Alice"); Some (Text "Bob"); Some (Text "Fay")].
Proof.
  split; [reflexivity|]. split; [reflexivity|].
  destruct (prepared_candidates_present Entree.lower Entree.strip
              Entree.df_cleaned Entree.vide eq_refl eq_refl) as (Hok & _).
  split; [exact Hok|]. by vm_compute.
Defined.
